(** * BODSService: a shallow embedding of [src/services/bodsService.js]

    The service aggregates bus departures for the three Cleveland Centre
    stands.  The embedding follows the class method by method.

    Conventions of the model.

    - Instants ([Date] objects, [Date.now()]) are integers, milliseconds
      since the epoch.  [new Date(x)] truncates a fractional [x] towards
      zero.
    - JavaScript numbers that are not integers ([Math.random()], the
      variation added to a departure, the minute difference of
      [determineStatus]) are exact rationals.
    - The code runs in a monad [Js] that threads the mutable world (the two
      node-cache instances, the [cacheHit] flag, the console, and how many
      random numbers and clock readings were consumed) and carries thrown
      errors; what the outside world answers during one operation (random
      draws, clock readings, HTTP responses, the order in which concurrent
      requests complete) is read from an environment [Env].
    - Object literals used as lookup tables ([this.stops], [frequencies],
      [destinations], the parsed timetables) are finite maps; keys range
      over ordinary route and stop identifiers, not over the property names
      every object inherits from [Object.prototype].
    - [console.log] lines are informational and are left out; every
      [console.warn] and [console.error] is recorded. *)

From Stdlib Require Import ZArith QArith Qround Qabs Lia Lqa Sorted Permutation.
From stdpp Require Import gmap strings list fin_maps.

Open Scope Z_scope.

(** ** Numbers *)

(** [new Date(x)]: the time value is [x] truncated towards zero. *)
Definition Date_of (x : Q) : Z := Z.quot (Qnum x) (Z.pos (Qden x)).

(** [Math.round(x)]: the integer nearest to [x], halves rounded up. *)
Definition Math_round (x : Q) : Z := Qfloor (x + (1 # 2)).

Definition Qltb (x y : Q) : bool :=
  Qnum x * Z.pos (Qden y) <? Qnum y * Z.pos (Qden x).

(** ** Domain records *)

Inductive Status := onTime | delayed | early | estimated | live.
Inductive Source := timetable | vehicle_tracking | fallback.

#[global] Instance Status_eq_dec : EqDecision Status.
Proof. solve_decision. Defined.
#[global] Instance Source_eq_dec : EqDecision Source.
Proof. solve_decision. Defined.

(** One entry of a parsed timetable, as [generateDepartureTimes] pushes it. *)
Module TimeData.
Record t := mk { scheduled : Z; estimated : Z; status : Status }.
End TimeData.

(** The record handed to callers.  [operator] is [stopConfig.operators[0]],
    which is [undefined] for an empty list. *)
Record Service := mkService {
  routeNumber : string;
  destination : string;
  operator : option string;
  scheduledTime : Z;
  estimatedTime : option Z;
  status : Status;
  source : Source
}.

(** A vehicle observation, as [parseSIRIVM] pushes it. *)
Module Vehicle.
Record t := mk {
  vehicleRef : string;
  lineRef : string;
  routeNumber : option string;
  destination : string;
  latitude : Q;
  longitude : Q;
  timestamp : Z
}.
End Vehicle.

Record StopConfig := mkStop {
  name : string;
  operators : list string;
  routes : list string;
  datasets : list string
}.

(** [this.stops], in declaration order (the order of [Object.keys]). *)
Definition stops : list (string * StopConfig) :=
  [ ("079073279A"%string,
     mkStop "Cleveland Centre (Stand O)" ["Stagecoach"%string]
            ["10"; "12"; "13"; "14"]%string ["18509"%string]);
    ("079073279B"%string,
     mkStop "Cleveland Centre (Stand P)" ["Arriva"%string]
            ["17A"; "17B"]%string ["15890"%string]);
    ("079073279C"%string,
     mkStop "Cleveland Centre (Stand Q)" ["Arriva"%string]
            ["29"; "63"]%string ["15890"%string]) ].

(** [this.stops[stopId]] *)
Fixpoint lookupStop (tbl : list (string * StopConfig)) (stopId : string)
  : option StopConfig :=
  match tbl with
  | [] => None
  | (k, c) :: rest => if decide (k = stopId) then Some c else lookupStop rest stopId
  end.

Definition registered (stopId : string) : Prop :=
  is_Some (lookupStop stops stopId).

Definition baseUrl : string := "https://data.bus-data.dft.gov.uk/api/v1".

(** [server.js]: [CACHE_TTL] and [VEHICLE_CACHE_TTL], in seconds. *)
Definition CACHE_TTL : Z := 300.
Definition VEHICLE_CACHE_TTL : Z := 30.

(** ** Upstream documents, as the decoders return them *)

(** xml2js with [explicitArray: false]: a child that occurs once is the
    child itself, one that occurs several times is an array. *)
Inductive OneOrMany (A : Type) := One (a : A) | Many (l : list A).
Arguments One {A} a.
Arguments Many {A} l.

(** [Array.isArray(x) ? x : [x]], for an [x] that may be [undefined]. *)
Definition asArray {A} (x : option (OneOrMany A)) : list (option A) :=
  match x with
  | None => [None]
  | Some (One a) => [Some a]
  | Some (Many l) => map Some l
  end.

(** The same for an [x] that is present. *)
Definition toArray {A} (x : OneOrMany A) : list A :=
  match x with
  | One a => [a]
  | Many l => l
  end.

Module Xml.
(** [attrs] is the attribute object [$]: absent when the element has no
    attribute; inside it the [id] may be absent. *)
Record LineElt := mkLine {
  attrs : option (option string);
  LineName : option string
}.
(** [TimingLinkRef]: whether [pattern.TimingLinkRef] is truthy. *)
Record JourneyPatternElt := mkPattern { TimingLinkRef : bool }.
Record ServiceElt := mkService {
  Lines : option (option (OneOrMany LineElt));
  StandardService : option (option (OneOrMany JourneyPatternElt))
}.
Record TransXChangeElt := mkTxc {
  Services : option (option (OneOrMany ServiceElt))
}.

Record JourneyElt := mkJourney {
  VehicleRef : option string;
  LineRef : option string;
  PublishedLineName : option string;
  DestinationName : option string;
  Latitude : option Q;
  Longitude : option Q;
  RecordedAtTime : option Z
}.
Record ActivityElt := mkActivity {
  MonitoredVehicleJourney : option JourneyElt
}.
(** [Siri.ServiceDelivery.VehicleMonitoringDelivery], when all three are
    present; [VehicleActivity] inside it. *)
Record SiriElt := mkSiri {
  VehicleMonitoringDelivery : option (option (OneOrMany ActivityElt))
}.

(** The object xml2js resolves with. *)
Record Root := mkRoot {
  TransXChange : option TransXChangeElt;
  Siri : option SiriElt
}.
End Xml.

(** A JSON value as far as the code looks at it: [null], or something whose
    [url] property may be missing. *)
Inductive Json := JNull | JObject (url : option string).

Inductive Body := JsonBody (j : Json) | XmlBody (x : Xml.Root) | Malformed.

Module Response.
Record t := mk { status : Z; body : Body }.
(** node-fetch: [ok] is [status >= 200 && status < 300]. *)
Definition ok (r : t) : bool := (200 <=? status r) && (status r <? 300).
End Response.

(** ** Errors and console output *)

Inductive JsError :=
| UnknownStopID (stopId : string)
| DatasetAPIReturned (status : Z)
| VehicleAPIReturned (status : Z)
| NetworkError
| SyntaxError
| TypeError.

Inductive Signal :=
| FailedToFetchDataset (datasetId : string) (e : JsError)
| ErrorParsingTransXChange (e : JsError)
| ErrorExtractingServiceTimes (e : JsError)
| FailedToFetchVehiclePositions (e : JsError)
| ErrorParsingSIRIVM (e : JsError)
| ErrorFetchingBODSData (stopId : string) (e : JsError)
| FailedToFetchDataForStop (stopId : string) (e : JsError).

(** ** The two caches (node-cache)

    An entry is stored with its expiry instant and is checked against the
    clock when it is read.  The periodic sweep ([checkperiod]) only removes
    entries a read would already report as missing, and is left out; so are
    the hit and miss counters. *)

Module NodeCache.
(** [t] is the expiry instant; 0 means the entry never expires. *)
Record Entry (V : Type) := mkEntry { v : V; t : Z }.
Arguments mkEntry {V} v t.
Arguments v {V} e.
Arguments t {V} e.

Definition fresh {V} (e : Entry V) (now : Z) : bool :=
  (t e =? 0) || (now <=? t e).

Definition wrap {V} (value : V) (ttl now : Z) : Entry V :=
  mkEntry value (if ttl =? 0 then 0 else now + ttl * 1000).
End NodeCache.

(** ** The world and the environment *)

Record World := mkWorld {
  cache : gmap string (NodeCache.Entry (list Service));
  vehicleCache : gmap string (NodeCache.Entry (list Vehicle.t));
  cacheHit : bool;
  console : list Signal;
  drawn : nat;
  ticks : nat
}.

Record Env := mkEnv {
  random : nat -> Q;
  clock : nat -> Z;
  network : string -> option Response.t;
  arrival : string -> nat
}.

Definition initialWorld : World := mkWorld ∅ ∅ false [] 0 0.

Inductive Outcome (A : Type) := Returned (a : A) | Thrown (e : JsError).
Arguments Returned {A} a.
Arguments Thrown {A} e.

Definition Js (A : Type) : Type := Env -> World -> Outcome A * World.

Definition ret {A} (a : A) : Js A := fun _ w => (Returned a, w).

Definition throw {A} (e : JsError) : Js A := fun _ w => (Thrown e, w).

Definition bind {A B} (m : Js A) (k : A -> Js B) : Js B :=
  fun env w =>
    match m env w with
    | (Returned a, w') => k a env w'
    | (Thrown e, w') => (Thrown e, w')
    end.

Definition try_catch {A} (m : Js A) (handler : JsError -> Js A) : Js A :=
  fun env w =>
    match m env w with
    | (Returned a, w') => (Returned a, w')
    | (Thrown e, w') => handler e env w'
    end.

Declare Scope js_scope.
Delimit Scope js_scope with js.
Notation "x <- m ;; k" := (bind m (fun x => k))
  (at level 100, m at next level, right associativity) : js_scope.
Notation "m ;; k" := (bind m (fun _ => k))
  (at level 100, right associativity) : js_scope.
Open Scope js_scope.

(** [Math.random()] *)
Definition Math_random : Js Q :=
  fun env w =>
    (Returned (random env (drawn w)),
     mkWorld (cache w) (vehicleCache w) (cacheHit w) (console w)
             (S (drawn w)) (ticks w)).

(** [Date.now()], [new Date()] *)
Definition Date_now : Js Z :=
  fun env w =>
    (Returned (clock env (ticks w)),
     mkWorld (cache w) (vehicleCache w) (cacheHit w) (console w)
             (drawn w) (S (ticks w))).

(** [console.warn] and [console.error] *)
Definition console_warn (s : Signal) : Js unit :=
  fun _ w =>
    (Returned tt,
     mkWorld (cache w) (vehicleCache w) (cacheHit w) (console w ++ [s])
             (drawn w) (ticks w)).

(** [fetch(url)]: rejects when the request itself fails. *)
Definition fetch (url : string) : Js Response.t :=
  fun env w =>
    match network env url with
    | Some r => (Returned r, w)
    | None => (Thrown NetworkError, w)
    end.

(** [this.cacheHit = b] *)
Definition set_cacheHit (b : bool) : Js unit :=
  fun _ w =>
    (Returned tt,
     mkWorld (cache w) (vehicleCache w) b (console w) (drawn w) (ticks w)).

Definition get_cache : Js (gmap string (NodeCache.Entry (list Service))) :=
  fun _ w => (Returned (cache w), w).

Definition put_cache (c : gmap string (NodeCache.Entry (list Service))) : Js unit :=
  fun _ w =>
    (Returned tt,
     mkWorld c (vehicleCache w) (cacheHit w) (console w) (drawn w) (ticks w)).

Definition get_vehicleCache : Js (gmap string (NodeCache.Entry (list Vehicle.t))) :=
  fun _ w => (Returned (vehicleCache w), w).

Definition put_vehicleCache (c : gmap string (NodeCache.Entry (list Vehicle.t))) : Js unit :=
  fun _ w =>
    (Returned tt,
     mkWorld (cache w) c (cacheHit w) (console w) (drawn w) (ticks w)).

(** [this.cache.get(key)]: an entry past its expiry is deleted and reported
    as a miss; the clock is read only to check an entry that can expire. *)
Definition cache_get (key : string) : Js (option (list Service)) :=
  c <- get_cache ;;
  match c !! key with
  | None => ret None
  | Some e =>
      if NodeCache.t e =? 0 then ret (Some (NodeCache.v e))
      else
        now <- Date_now ;;
        if NodeCache.fresh e now then ret (Some (NodeCache.v e))
        else put_cache (delete key c) ;; ret None
  end.

(** [this.cache.set(key, value, ttl)] *)
Definition cache_set (key : string) (value : list Service) (ttl : Z) : Js unit :=
  now <- Date_now ;;
  c <- get_cache ;;
  put_cache (<[key := NodeCache.wrap value ttl now]> c).

Definition vehicleCache_get (key : string) : Js (option (list Vehicle.t)) :=
  c <- get_vehicleCache ;;
  match c !! key with
  | None => ret None
  | Some e =>
      if NodeCache.t e =? 0 then ret (Some (NodeCache.v e))
      else
        now <- Date_now ;;
        if NodeCache.fresh e now then ret (Some (NodeCache.v e))
        else put_vehicleCache (delete key c) ;; ret None
  end.

Definition vehicleCache_set (key : string) (value : list Vehicle.t) (ttl : Z) : Js unit :=
  now <- Date_now ;;
  c <- get_vehicleCache ;;
  put_vehicleCache (<[key := NodeCache.wrap value ttl now]> c).

(** ** The service *)

(** [this.apiKey].  [server.js] passes a credential; it only ends up in
    the query string of the requests, so a placeholder stands for it. *)
Definition apiKey : string := "BODS_API_KEY".

(** [a || b] on strings that may be [undefined]: the empty string is falsy. *)
Definition js_or (a b : option string) : option string :=
  match a with
  | Some s => if String.eqb s "" then b else Some s
  | None => b
  end.

(** [determineStatus(scheduled, estimated)] *)
Definition determineStatus (scheduled estimatedAt : Z) : Status :=
  let diff := (inject_Z (estimatedAt - scheduled) / 60000)%Q in
  if Qltb (Qabs diff) 2 then onTime
  else if Qltb 5 diff then delayed
  else if Qltb diff (-3) then early
  else estimated.

Definition frequencies : gmap string Z :=
  list_to_map [ ("10", 20); ("12", 30); ("13", 25); ("14", 35);
                ("17A", 15); ("17B", 20); ("29", 40); ("63", 45) ]%string.

(** [estimateFrequency(lineName)]; no entry of the table is falsy. *)
Definition estimateFrequency (lineName : string) : Z :=
  default 30 (frequencies !! lineName).

Definition destinations : gmap string string :=
  list_to_map [ ("10", "Lingfield Park"); ("12", "Coulby Newham");
                ("13", "Coulby Newham"); ("14", "Trimdon Avenue");
                ("17A", "Stockton via Ingleby Barwick");
                ("17B", "Stockton via Thornaby");
                ("29", "Redcar"); ("63", "Redcar") ]%string.

(** [getDestinationForRoute(routeNumber)] *)
Definition getDestinationForRoute (routeNumber : string) : string :=
  default "City Centre"%string (destinations !! routeNumber).

(** The loop of [generateDepartureTimes]: iteration [i], with [n] iterations
    left and [times] pushed so far. *)
Fixpoint generateDepartureTimes_from (startTime frequency i : Z) (n : nat)
    (times : list TimeData.t) : Js (list TimeData.t) :=
  match n with
  | O => ret times
  | S n' =>
      let departureTime := startTime + frequency * i * 60000 in
      r <- Math_random ;;
      let variation := ((r - (1 # 2)) * 4 * 60000)%Q in
      let adjustedTime := Date_of (inject_Z departureTime + variation) in
      generateDepartureTimes_from startTime frequency (i + 1) n'
        (if startTime <? adjustedTime
         then times ++ [TimeData.mk departureTime adjustedTime
                          (determineStatus departureTime adjustedTime)]
         else times)
  end.

(** [generateDepartureTimes(startTime, frequency, count)] *)
Definition generateDepartureTimes (startTime frequency : Z) (count : nat)
  : Js (list TimeData.t) :=
  generateDepartureTimes_from startTime frequency 0 count [].

(** [service.Lines.Line.LineName]: a [TypeError] when [Lines] or [Line] is
    missing, [undefined] when [Line] is an array. *)
Definition lineNameOf (service : Xml.ServiceElt) : Outcome (option string) :=
  match Xml.Lines service with
  | Some (Some (One line)) => Returned (Xml.LineName line)
  | Some (Some (Many _)) => Returned None
  | _ => Thrown TypeError
  end.

(** The pattern loop of [extractServiceTimes].  The local array [times]
    outlives an error raised inside the [try]: the loop hands back what was
    pushed so far together with the error, if any. *)
Fixpoint extractServiceTimes_loop (now : Z) (service : Xml.ServiceElt)
    (patterns : list Xml.JourneyPatternElt) (times : list TimeData.t)
  : Js (list TimeData.t * option JsError) :=
  match patterns with
  | [] => ret (times, None)
  | pattern :: rest =>
      if Xml.TimingLinkRef pattern then
        match lineNameOf service with
        | Thrown e => ret (times, Some e)
        | Returned lineName =>
            (* an [undefined] key reads the property "undefined" *)
            let baseFreq := estimateFrequency (default "undefined"%string lineName) in
            new <- generateDepartureTimes now baseFreq 8 ;;
            extractServiceTimes_loop now service rest (times ++ new)
        end
      else extractServiceTimes_loop now service rest times
  end.

(** [extractServiceTimes(service)] *)
Definition extractServiceTimes (service : Xml.ServiceElt) : Js (list TimeData.t) :=
  now <- Date_now ;;
  match Xml.StandardService service with
  | Some (Some journeyPattern) =>
      let journeyPatterns := toArray journeyPattern in
      r <- extractServiceTimes_loop now service journeyPatterns [] ;;
      match r with
      | (times, None) => ret times
      | (times, Some e) => console_warn (ErrorExtractingServiceTimes e) ;; ret times
      end
  | _ => ret []
  end.

(** [parser.parseStringPromise(xmlData)] *)
Definition parseStringPromise (xmlData : Body) : Js Xml.Root :=
  match xmlData with
  | XmlBody x => ret x
  | _ => throw SyntaxError
  end.

(** The service loop of [parseTransXChange]. *)
Fixpoint parseTransXChange_loop (serviceArray : list (option Xml.ServiceElt))
    (services : gmap string (list TimeData.t)) : Js (gmap string (list TimeData.t)) :=
  match serviceArray with
  | [] => ret services
  | None :: rest => parseTransXChange_loop rest services
  | Some service :: rest =>
      match Xml.Lines service with
      | Some (Some line) =>
          match line with
          | Many _ => throw TypeError
          | One l =>
              match Xml.attrs l with
              | None => throw TypeError
              | Some id =>
                  match js_or (js_or id (Xml.LineName l)) None with
                  | Some lineRef =>
                      times <- extractServiceTimes service ;;
                      parseTransXChange_loop rest (<[lineRef := times]> services)
                  | None => parseTransXChange_loop rest services
                  end
              end
          end
      | _ => parseTransXChange_loop rest services
      end
  end.

(** [parseTransXChange(xmlData)] *)
Definition parseTransXChange (xmlData : Body) : Js (gmap string (list TimeData.t)) :=
  try_catch
    (result <- parseStringPromise xmlData ;;
     match Xml.TransXChange result with
     | Some transXChange =>
         match Xml.Services transXChange with
         | Some service => parseTransXChange_loop (asArray service) ∅
         | None => ret ∅
         end
     | None => ret ∅
     end)
    (fun e => console_warn (ErrorParsingTransXChange e) ;; ret ∅).

(** [response.json()] *)
Definition json (r : Response.t) : Js Json :=
  match Response.body r with
  | JsonBody j => ret j
  | _ => throw SyntaxError
  end.

(** [metadata.url] *)
Definition url_of (metadata : Json) : Js (option string) :=
  match metadata with
  | JNull => throw TypeError
  | JObject u => ret u
  end.

Definition metadataUrl (datasetId : string) : string :=
  (baseUrl +:+ "/dataset/" +:+ datasetId +:+ "/?api_key=" +:+ apiKey)%string.

Definition timetableUrl (url : string) : string :=
  (url +:+ "?api_key=" +:+ apiKey)%string.

(** [fetchTimetableData(datasetIds)]: the loop over the datasets, with the
    timetables merged so far. *)
Fixpoint fetchTimetableData_loop (datasetIds : list string)
    (allTimetables : gmap string (list TimeData.t))
  : Js (gmap string (list TimeData.t)) :=
  match datasetIds with
  | [] => ret allTimetables
  | datasetId :: rest =>
      allTimetables' <-
        try_catch
          (metadataResponse <- fetch (metadataUrl datasetId) ;;
           (if Response.ok metadataResponse then ret tt
            else throw (DatasetAPIReturned (Response.status metadataResponse))) ;;
           metadata <- json metadataResponse ;;
           u <- url_of metadata ;;
           match js_or u None with
           | Some url =>
               timetableResponse <- fetch (timetableUrl url) ;;
               if Response.ok timetableResponse then
                 parsedData <- parseTransXChange (Response.body timetableResponse) ;;
                 (* Object.assign: entries of parsedData overwrite *)
                 ret (parsedData ∪ allTimetables)
               else ret allTimetables
           | None => ret allTimetables
           end)
          (fun e => console_warn (FailedToFetchDataset datasetId e) ;; ret allTimetables) ;;
      fetchTimetableData_loop rest allTimetables'
  end.

Definition fetchTimetableData (datasetIds : list string)
  : Js (gmap string (list TimeData.t)) :=
  fetchTimetableData_loop datasetIds ∅.

(** The activity loop of [parseSIRIVM]. *)
Fixpoint parseSIRIVM_loop (activities : list (option Xml.ActivityElt))
    (vehicles : list Vehicle.t) : Js (list Vehicle.t) :=
  match activities with
  | [] => ret vehicles
  | Some (Xml.mkActivity (Some journey)) :: rest =>
      timestamp <- match Xml.RecordedAtTime journey with
                   | Some t => ret t
                   | None => Date_now
                   end ;;
      parseSIRIVM_loop rest
        (vehicles ++
         [Vehicle.mk
            (default "unknown"%string (js_or (Xml.VehicleRef journey) None))
            (default "unknown"%string (js_or (Xml.LineRef journey) None))
            (js_or (Xml.PublishedLineName journey) (Xml.LineRef journey))
            (default "Unknown"%string (js_or (Xml.DestinationName journey) None))
            (default 0%Q (Xml.Latitude journey))
            (default 0%Q (Xml.Longitude journey))
            timestamp])
  | _ :: rest => parseSIRIVM_loop rest vehicles
  end.

(** [parseSIRIVM(xmlData)] *)
Definition parseSIRIVM (xmlData : Body) : Js (list Vehicle.t) :=
  try_catch
    (result <- parseStringPromise xmlData ;;
     match Xml.Siri result with
     | Some (Xml.mkSiri (Some vehicleActivity)) =>
         parseSIRIVM_loop (asArray vehicleActivity) []
     | _ => ret []
     end)
    (fun e => console_warn (ErrorParsingSIRIVM e) ;; ret []).

Definition vehicleUrl : string :=
  (baseUrl +:+ "/datafeed/?boundingBox=-1.27,54.57,-1.23,54.58&api_key=" +:+ apiKey)%string.

(** [getVehiclePositions()] *)
Definition getVehiclePositions : Js (list Vehicle.t) :=
  cached <- vehicleCache_get "vehicle_positions" ;;
  match cached with
  | Some vehicles => ret vehicles
  | None =>
      try_catch
        (response <- fetch vehicleUrl ;;
         if Response.ok response then
           vehicles <- parseSIRIVM (Response.body response) ;;
           vehicleCache_set "vehicle_positions" vehicles VEHICLE_CACHE_TTL ;;
           ret vehicles
         else throw (VehicleAPIReturned (Response.status response)))
        (fun e => console_warn (FailedToFetchVehiclePositions e) ;; ret [])
  end.

(** [a.estimatedTime || a.scheduledTime]: a [Date] object is truthy. *)
Definition serviceTime (s : Service) : Z :=
  match estimatedTime s with
  | Some t => t
  | None => scheduledTime s
  end.

(** [Array.prototype.sort] with a comparator [(a, b) => key(a) - key(b)]:
    the sort is stable, so the result is the one of a stable insertion
    sort. *)
Fixpoint insertBy {A} (key : A -> Z) (x : A) (l : list A) : list A :=
  match l with
  | [] => [x]
  | y :: l' =>
      if key x <=? key y then x :: y :: l'
      else y :: insertBy key x l'
  end.

Definition sortBy {A} (key : A -> Z) (l : list A) : list A :=
  foldr (insertBy key) [] l.

Definition sortByTime (l : list Service) : list Service := sortBy serviceTime l.

(** The loop of [generateFallbackForRoute]. *)
Fixpoint generateFallbackForRoute_from (routeNumber : string) (operator : option string)
    (now frequency : Z) (destination : string) (i : Z) (n : nat)
    (services : list Service) : Js (list Service) :=
  match n with
  | O => ret services
  | S n' =>
      let baseTime := now + frequency * i * 60000 in
      r <- Math_random ;;
      let variation := ((r - (1 # 2)) * 6 * 60000)%Q in
      let scheduledTime := baseTime in
      let estimatedTime := Date_of (inject_Z baseTime + variation) in
      generateFallbackForRoute_from routeNumber operator now frequency destination
        (i + 1) n'
        (services ++
         [mkService routeNumber destination operator scheduledTime
            (Some estimatedTime)
            (determineStatus scheduledTime estimatedTime) fallback])
  end.

(** [generateFallbackForRoute(routeNumber, operator)] *)
Definition generateFallbackForRoute (routeNumber : string) (operator : option string)
  : Js (list Service) :=
  now <- Date_now ;;
  let frequency := estimateFrequency routeNumber in
  let destination := getDestinationForRoute routeNumber in
  generateFallbackForRoute_from routeNumber operator now frequency destination 0 4 [].

(** The route loop of [getFallbackDataForStop]. *)
Fixpoint getFallbackDataForStop_loop (stopConfig : StopConfig) (routes : list string)
    (allServices : list Service) : Js (list Service) :=
  match routes with
  | [] => ret allServices
  | routeNumber :: rest =>
      routeServices <- generateFallbackForRoute routeNumber (head (operators stopConfig)) ;;
      getFallbackDataForStop_loop stopConfig rest (allServices ++ routeServices)
  end.

(** [getFallbackDataForStop(stopId)] *)
Definition getFallbackDataForStop (stopId : string) : Js (list Service) :=
  match lookupStop stops stopId with
  | None => ret []
  | Some stopConfig =>
      allServices <- getFallbackDataForStop_loop stopConfig (routes stopConfig) [] ;;
      ret (take 6 (sortByTime allServices))
  end.

(** [calculateETA(vehicle)] *)
Definition calculateETA (vehicle : Vehicle.t) : Js Z :=
  r <- Math_random ;;
  let distance := (r * 3)%Q in
  let averageSpeed := 25%Q in
  ret (Z.max 1 (Math_round ((distance / averageSpeed) * 60)%Q)).

Definition matches (service : Service) (v : Vehicle.t) : bool :=
  bool_decide (Vehicle.routeNumber v = Some (routeNumber service))
  || bool_decide (Vehicle.lineRef v = routeNumber service).

(** [vehicles.filter(v => ...)] *)
Definition matchingVehicles (service : Service) (vehicles : list Vehicle.t)
  : list Vehicle.t :=
  filter (fun v => matches service v = true) vehicles.

(** [enhanceWithVehicleData(services, vehicles)].  The source overwrites the
    three fields of each object in place; the objects of the array are
    distinct, so the model returns the updated array. *)
Fixpoint enhanceWithVehicleData (services : list Service) (vehicles : list Vehicle.t)
  : Js (list Service) :=
  match services with
  | [] => ret []
  | service :: rest =>
      service' <-
        match matchingVehicles service vehicles with
        | vehicle :: _ =>
            estimatedMinutes <- calculateETA vehicle ;;
            if 0 <? estimatedMinutes then
              now <- Date_now ;;
              ret (mkService (routeNumber service) (destination service)
                     (operator service) (scheduledTime service)
                     (Some (now + estimatedMinutes * 60000)) live vehicle_tracking)
            else ret service
        | [] => ret service
        end ;;
      rest' <- enhanceWithVehicleData rest vehicles ;;
      ret (service' :: rest')
  end.

(** The route loop of [processBusServices]. *)
Fixpoint processBusServices_loop (stopConfig : StopConfig) (routes : list string)
    (timetableData : gmap string (list TimeData.t)) (services : list Service)
  : Js (list Service) :=
  match routes with
  | [] => ret services
  | routeNumber :: rest =>
      match timetableData !! routeNumber with
      | Some (timeData :: more) =>
          processBusServices_loop stopConfig rest timetableData
            (services ++
             map (fun timeData =>
                    mkService routeNumber (getDestinationForRoute routeNumber)
                      (head (operators stopConfig))
                      (TimeData.scheduled timeData)
                      (Some (TimeData.estimated timeData))
                      (TimeData.status timeData) timetable)
                 (timeData :: more))
      | _ =>
          fallbackServices <- generateFallbackForRoute routeNumber (head (operators stopConfig)) ;;
          processBusServices_loop stopConfig rest timetableData
            (services ++ fallbackServices)
      end
  end.

(** [processBusServices(stopConfig, timetableData, vehicles)] *)
Definition processBusServices (stopConfig : StopConfig)
    (timetableData : gmap string (list TimeData.t)) (vehicles : list Vehicle.t)
  : Js (list Service) :=
  services <- processBusServices_loop stopConfig (routes stopConfig) timetableData [] ;;
  services <- enhanceWithVehicleData services vehicles ;;
  ret (take 8 (sortByTime services)).

Definition cacheKey (stopId : string) : string := ("stop_" +:+ stopId)%string.

(** [getBusTimesForStop], up to the cache lookup: the cached array on a
    hit. *)
Definition getBusTimesForStop_cached (stopId : string) : Js (option (list Service)) :=
  cached <- cache_get (cacheKey stopId) ;;
  match cached with
  | Some services => set_cacheHit true ;; ret (Some services)
  | None => set_cacheHit false ;; ret None
  end.

(** The [try] block of [getBusTimesForStop]. *)
Definition getBusTimesForStop_try (stopId : string) (stopConfig : StopConfig)
  : Js (list Service) :=
  timetableData <- fetchTimetableData (datasets stopConfig) ;;
  vehicles <- getVehiclePositions ;;
  busServices <- processBusServices stopConfig timetableData vehicles ;;
  cache_set (cacheKey stopId) busServices CACHE_TTL ;;
  ret busServices.

(** The [catch] block of [getBusTimesForStop]. *)
Definition getBusTimesForStop_catch (stopId : string) (e : JsError)
  : Js (list Service) :=
  console_warn (ErrorFetchingBODSData stopId e) ;;
  fallbackData <- getFallbackDataForStop stopId ;;
  cache_set (cacheKey stopId) fallbackData 60 ;;
  ret fallbackData.

(** [getBusTimesForStop], after a miss. *)
Definition getBusTimesForStop_fresh (stopId : string) : Js (list Service) :=
  match lookupStop stops stopId with
  | None => throw (UnknownStopID stopId)
  | Some stopConfig =>
      try_catch (getBusTimesForStop_try stopId stopConfig)
                (getBusTimesForStop_catch stopId)
  end.

(** [getBusTimesForStop(stopId)] *)
Definition getBusTimesForStop (stopId : string) : Js (list Service) :=
  cached <- getBusTimesForStop_cached stopId ;;
  match cached with
  | Some services => ret services
  | None => getBusTimesForStop_fresh stopId
  end.

(** [isCacheHit()] *)
Definition isCacheHit : Js bool := fun _ w => (Returned (cacheHit w), w).

(** [getFallbackData()]: an object with one key per stop, in registry
    order. *)
Fixpoint getFallbackData_loop (stopIds : list string)
    (fallbackData : list (string * list Service)) : Js (list (string * list Service)) :=
  match stopIds with
  | [] => ret fallbackData
  | stopId :: rest =>
      services <- getFallbackDataForStop stopId ;;
      getFallbackData_loop rest (fallbackData ++ [(stopId, services)])
  end.

Definition getFallbackData : Js (list (string * list Service)) :=
  getFallbackData_loop (map fst stops) [].

(** ** The calls of [getAllClevelandCentreData]

    [Object.keys(this.stops).map(async ...)] starts one call of
    [getBusTimesForStop] per stop, in registry order; each runs up to its
    first [await].  A call that hits the cache never waits for the network,
    so its continuation [allData[stopId] = stopData] runs before that of any
    call that fetches; the calls that fetch resume in the order in which
    their requests complete, which the environment decides ([arrival]).
    [allData] is an object: its keys, and [Object.values], keep the order
    in which the keys were created.  The model runs the remainder of each
    fetching call in one piece. *)

Fixpoint startAll (stopIds : list string)
  : Js (list (string * option (list Service))) :=
  match stopIds with
  | [] => ret []
  | stopId :: rest =>
      cached <- getBusTimesForStop_cached stopId ;;
      started <- startAll rest ;;
      ret ((stopId, cached) :: started)
  end.

Definition completionOrder (pending : list string) : Js (list string) :=
  fun env w => (Returned (sortBy (fun id => Z.of_nat (arrival env id)) pending), w).

Fixpoint finishAll (pending : list string) (allData : list (string * list Service))
  : Js (list (string * list Service)) :=
  match pending with
  | [] => ret allData
  | stopId :: rest =>
      stopData <-
        try_catch (getBusTimesForStop_fresh stopId)
          (fun e =>
             console_warn (FailedToFetchDataForStop stopId e) ;;
             getFallbackDataForStop stopId) ;;
      finishAll rest (allData ++ [(stopId, stopData)])
  end.

(** The calls answered from the cache, with their arrays. *)
Definition hitsOf (started : list (string * option (list Service)))
  : list (string * list Service) :=
  omap (fun p => match snd p with
                 | Some services => Some (fst p, services)
                 | None => None
                 end) started.

(** The calls that go on to fetch. *)
Definition missesOf (started : list (string * option (list Service)))
  : list string :=
  omap (fun p => match snd p with
                 | Some _ => None
                 | None => Some (fst p)
                 end) started.

(** [getAllClevelandCentreData()] *)
Definition getAllClevelandCentreData : Js (list (string * list Service)) :=
  started <- startAll (map fst stops) ;;
  order <- completionOrder (missesOf started) ;;
  finishAll order (hitsOf started).

(** The body of the two nested [forEach] of [getNextBusGlobally]; the pair
    is ([nextBus], [earliestTime]). *)
Definition scanService (acc : option Service * option Z) (service : Service)
  : option Service * option Z :=
  let serviceTime := serviceTime service in
  match snd acc with
  | None => (Some service, Some serviceTime)
  | Some earliestTime =>
      if serviceTime <? earliestTime then (Some service, Some serviceTime)
      else acc
  end.

Definition scanAll (values : list (list Service)) : option Service * option Z :=
  fold_left (fun acc stopServices => fold_left scanService stopServices acc)
            values (None, None).

(** [getNextBusGlobally()] *)
Definition getNextBusGlobally : Js (option Service) :=
  allData <- getAllClevelandCentreData ;;
  ret (fst (scanAll (map snd allData))).

(** ** Reachable worlds *)

(** What [server.js] does with the service and the two caches. *)
Inductive Request :=
| GetBusTimes                      (* GET /api/bus-times *)
| GetBusTimesForStop (stopId : string)  (* GET /api/bus-times/:stopId *)
| GetNextBus                       (* GET /api/next-bus *)
| GetVehicles                      (* GET /api/vehicles *)
| ClearCache.                      (* POST /api/cache/clear *)

Definition flushAll : Js unit :=
  fun _ w => (Returned tt, mkWorld ∅ ∅ (cacheHit w) (console w) (drawn w) (ticks w)).

Definition serve (r : Request) : Js unit :=
  match r with
  | GetBusTimes =>
      try_catch (getAllClevelandCentreData ;; isCacheHit ;; ret tt)
                (fun _ => getFallbackData ;; ret tt)
  | GetBusTimesForStop stopId =>
      try_catch (getBusTimesForStop stopId ;; isCacheHit ;; ret tt)
                (fun _ => ret tt)
  | GetNextBus => try_catch (getNextBusGlobally ;; ret tt) (fun _ => ret tt)
  | GetVehicles => try_catch (getVehiclePositions ;; ret tt) (fun _ => ret tt)
  | ClearCache => flushAll
  end.

Inductive reachable : World -> Prop :=
| reachable_initial : reachable initialWorld
| reachable_serve (r : Request) (env : Env) (w : World) :
    reachable w -> reachable (snd (serve r env w)).

(** * Specification vocabulary *)

(** What a computation does from world [w]: [Q] on a result, [E] on a thrown
    error. *)
Definition spec {A} (m : Js A) (env : Env) (w : World)
    (Q : A -> World -> Prop) (E : JsError -> World -> Prop) : Prop :=
  match m env w with
  | (Returned a, w') => Q a w'
  | (Thrown e, w') => E e w'
  end.

(** The computation returns, and [Q] holds of the result. *)
Definition returns {A} (m : Js A) (env : Env) (w : World)
    (Q : A -> World -> Prop) : Prop :=
  spec m env w Q (fun _ _ => False).

(** The timetable cache and the [cacheHit] flag are as they were. *)
Definition keeps (w w' : World) : Prop :=
  cache w' = cache w /\ cacheHit w' = cacheHit w.

(** [Math.random()] yields a number in [0, 1). *)
Definition unitRandom (env : Env) : Prop :=
  forall n, (0 <= random env n)%Q /\ (random env n < 1)%Q.

Definition sortedBy {A} (key : A -> Z) (l : list A) : Prop :=
  StronglySorted (fun a b => key a <= key b) l.

(** Non-decreasing in [estimatedTime ?? scheduledTime]. *)
Definition sortedByTime (l : list Service) : Prop := sortedBy serviceTime l.

(** The difference [estimated - scheduled], in minutes. *)
Definition delta (scheduled estimatedAt : Z) : Q :=
  (inject_Z (estimatedAt - scheduled) / 60000)%Q.

(** The classification rule, in the words of the specification. *)
Definition delayRule (d : Q) (st : Status) : Prop :=
  ((Qabs d < 2)%Q -> st = onTime) /\
  ((5 < d)%Q -> st = delayed) /\
  ((d < -3)%Q -> st = early) /\
  (~ (Qabs d < 2)%Q -> ~ (5 < d)%Q -> ~ (d < -3)%Q -> st = estimated).

(** A service carries the status of the rule, or is live when tracked. *)
Definition statusRule (s : Service) : Prop :=
  if decide (source s = vehicle_tracking) then status s = live
  else exists e, estimatedTime s = Some e /\
                 delayRule (delta (scheduledTime s) e) (status s).

(** The same in terms of [determineStatus]. *)
Definition statusOK (s : Service) : Prop :=
  if decide (source s = vehicle_tracking) then status s = live
  else exists e, estimatedTime s = Some e /\
                 status s = determineStatus (scheduledTime s) e.

Definition timeDataOK (td : TimeData.t) : Prop :=
  TimeData.status td = determineStatus (TimeData.scheduled td) (TimeData.estimated td).

Definition goodTimetables (tt : gmap string (list TimeData.t)) : Prop :=
  forall k l, tt !! k = Some l -> Forall timeDataOK l.

Definition goodList (l : list Service) : Prop :=
  sortedByTime l /\ (length l <= 8)%nat /\ Forall statusOK l.

(** Every cached entry belongs to a registered stop and holds a list the
    service could have returned. *)
Definition goodCache (c : gmap string (NodeCache.Entry (list Service))) : Prop :=
  forall k e, c !! k = Some e ->
    (exists stopId, registered stopId /\ k = cacheKey stopId) /\
    goodList (NodeCache.v e).

Definition goodWorld (w : World) : Prop := goodCache (cache w).

(** A service as [processBusServices] first emits it for a route: from the
    timetable when the route has entries, else synthesized. *)
Definition emitted (tt : gmap string (list TimeData.t)) (s : Service) : Prop :=
  statusOK s /\
  (source s = fallback \/
   (source s = timetable /\ is_Some (tt !! routeNumber s))).

(** A fetch fails: the request is rejected, or the status is not 2xx. *)
Definition fetchFails (env : Env) (url : string) : Prop :=
  match network env url with
  | None => True
  | Some r => Response.ok r = false
  end.


(** The instant at which the last clock reading before [w] was taken. *)
Definition lastReading (env : Env) (w : World) : Z := clock env (pred (ticks w)).

(** [s] is the first service of [l] with the least [serviceTime]. *)
Definition firstEarliest (l : list Service) (r : option Service) : Prop :=
  match r with
  | None => l = []
  | Some s =>
      exists before after,
        l = before ++ s :: after /\
        Forall (fun x => serviceTime s < serviceTime x) before /\
        Forall (fun x => serviceTime s <= serviceTime x) after
  end.



(** What the live enhancement may do to one service: nothing when no
    vehicle matches; otherwise the three fields are overwritten from the
    first match. *)
Definition enhanced (env : Env) (vehicles : list Vehicle.t) (s s' : Service) : Prop :=
  routeNumber s' = routeNumber s /\
  destination s' = destination s /\
  operator s' = operator s /\
  scheduledTime s' = scheduledTime s /\
  match matchingVehicles s vehicles with
  | [] => s' = s
  | vehicle :: _ =>
      status s' = live /\ source s' = vehicle_tracking /\
      exists w0 w1 minutes,
        calculateETA vehicle env w0 = (Returned minutes, w1) /\
        1 <= minutes /\
        estimatedTime s' = Some (clock env (ticks w1) + minutes * 60000)
  end.


(** The two nested loops of [getNextBusGlobally] after the services [seen]:
    nothing yet, or the first of the earliest of them. *)
Definition scanned (seen : list Service) (acc : option Service * option Z) : Prop :=
  match acc with
  | (None, None) => seen = []
  | (Some s, Some t) => t = serviceTime s /\ firstEarliest seen (Some s)
  | _ => False
  end.


(** The departures that lie after [now]. *)
Definition kept (now : Z) (g : list TimeData.t) : list TimeData.t :=
  filter (fun c => now < TimeData.estimated c) g.

(** * Sample environments *)

(** The upstream is unreachable; [Math.random()] yields 1/2; the clock
    stands at [t]. *)
Definition envDown (t : Z) : Env :=
  mkEnv (fun _ => 1 # 2)%Q (fun _ => t) (fun _ => None) (fun _ => 0%nat).


(** The metadata of dataset 18509 is served and names a file; the download
    of the file answers 500. *)
Definition envBodyDown : Env :=
  mkEnv (fun _ => 1 # 2)%Q (fun _ => 1700000000000)
        (fun url =>
           if String.eqb url (metadataUrl "18509") then
             Some (Response.mk 200 (JsonBody (JObject (Some "https://files.example/18509.xml"%string))))
           else if String.eqb url (timetableUrl "https://files.example/18509.xml") then
             Some (Response.mk 500 Malformed)
           else None)
        (fun _ => 0%nat).

(** The dataset API is unreachable; the vehicle feed reports one vehicle
    on line 10. *)
Definition envTracked : Env :=
  mkEnv (fun _ => 1 # 2)%Q (fun _ => 1700000000000)
        (fun url =>
           if String.eqb url vehicleUrl then
             Some (Response.mk 200
                     (XmlBody (Xml.mkRoot None
                        (Some (Xml.mkSiri (Some (Some (One (Xml.mkActivity
                           (Some (Xml.mkJourney (Some "SCNE-26071"%string)
                                    (Some "10"%string) (Some "10"%string)
                                    (Some "Lingfield Park"%string)
                                    None None (Some 1699999990000))))))))))))
           else None)
        (fun _ => 0%nat).



(** The world after Stand P was queried at 1700000000000 with the upstream
    unreachable. *)
Definition worldAfterStandP : World :=
  snd (serve (GetBusTimesForStop "079073279B") (envDown 1700000000000) initialWorld).


(** * Further vocabulary *)


(** The monitored journeys of a list of vehicle activities, in order. *)
Definition journeysOf (activities : list (option Xml.ActivityElt))
  : list Xml.JourneyElt :=
  omap (fun a => match a with
                 | Some activity => Xml.MonitoredVehicleJourney activity
                 | None => None
                 end) activities.

(** The vehicle [parseSIRIVM] pushes for a journey. *)
Definition observes (journey : Xml.JourneyElt) (v : Vehicle.t) : Prop :=
  Vehicle.vehicleRef v = default "unknown"%string (js_or (Xml.VehicleRef journey) None) /\
  Vehicle.lineRef v = default "unknown"%string (js_or (Xml.LineRef journey) None) /\
  Vehicle.routeNumber v =
    js_or (Xml.PublishedLineName journey) (Xml.LineRef journey) /\
  Vehicle.destination v =
    default "Unknown"%string (js_or (Xml.DestinationName journey) None) /\
  Vehicle.latitude v = default 0%Q (Xml.Latitude journey) /\
  Vehicle.longitude v = default 0%Q (Xml.Longitude journey) /\
  (forall t, Xml.RecordedAtTime journey = Some t -> Vehicle.timestamp v = t).

(** [line.$.id || line.LineName] of a service with a single line: the key
    under which [parseTransXChange] files the service. *)
Definition lineRefOf (service : Xml.ServiceElt) : option string :=
  match Xml.Lines service with
  | Some (Some (One l)) =>
      match Xml.attrs l with
      | Some id => js_or (js_or id (Xml.LineName l)) None
      | None => None
      end
  | _ => None
  end.

(** A service on which [line.$.id] throws: several lines, or one line
    without attributes. *)
Definition brokenLine (service : Xml.ServiceElt) : Prop :=
  match Xml.Lines service with
  | Some (Some (Many _)) => True
  | Some (Some (One l)) => Xml.attrs l = None
  | _ => False
  end.

(** A service of a stop: one of its routes, its first operator, the
    destination of the route, and an estimated time. *)
Definition servesStop (stopConfig : StopConfig) (s : Service) : Prop :=
  routeNumber s ∈ routes stopConfig /\
  operator s = head (operators stopConfig) /\
  destination s = getDestinationForRoute (routeNumber s) /\
  is_Some (estimatedTime s).

(** ** The routes of [server.js]

    A handler is modelled by the status code and the body it sends.  The
    [timestamp] of a body is the clock reading of [new Date()], not its ISO
    text; the fields that are the same in every reply ([success], [source])
    are carried by the constructor.  [console.log] lines, the middleware
    and the routes that only report cache statistics are left out. *)

Inductive Reply :=
| BusTimes (timestamp : Z) (data : list (string * list Service)) (cached : bool)
| BusTimesFailed (error : JsError) (fallbackData : list (string * list Service))
| StopTimes (timestamp : Z) (stopId : string) (data : list Service) (cached : bool)
| StopTimesFailed (error : JsError) (stopId : string)
| NextBus (timestamp : Z) (nextBus : option Service) (isPhilBus : bool)
| NextBusFailed (error : JsError)
| Vehicles (timestamp : Z) (vehicles : list Vehicle.t) (count : nat)
| VehiclesFailed (error : JsError)
| CacheCleared.

(** [['17A', '17B'].includes(nextBus?.routeNumber)] *)
Definition isPhilBus (nextBus : option Service) : bool :=
  match nextBus with
  | Some s => String.eqb (routeNumber s) "17A" || String.eqb (routeNumber s) "17B"
  | None => false
  end.

(** [GET /api/bus-times]: the status code and the body. *)
Definition getApiBusTimes : Js (Z * Reply) :=
  try_catch
    (allStopData <- getAllClevelandCentreData ;;
     timestamp <- Date_now ;;
     cached <- isCacheHit ;;
     ret (200, BusTimes timestamp allStopData cached))
    (fun error =>
       fallbackData <- getFallbackData ;;
       ret (500, BusTimesFailed error fallbackData)).


(** [GET /api/next-bus] *)
Definition getApiNextBus : Js (Z * Reply) :=
  try_catch
    (nextBus <- getNextBusGlobally ;;
     timestamp <- Date_now ;;
     ret (200, NextBus timestamp nextBus (isPhilBus nextBus)))
    (fun error => ret (500, NextBusFailed error)).

(** [GET /api/vehicles] *)
Definition getApiVehicles : Js (Z * Reply) :=
  try_catch
    (vehicles <- getVehiclePositions ;;
     timestamp <- Date_now ;;
     ret (200, Vehicles timestamp vehicles (length vehicles)))
    (fun error => ret (500, VehiclesFailed error)).

(** [POST /api/cache/clear] *)
Definition postApiCacheClear : Js (Z * Reply) :=
  flushAll ;; ret (200, CacheCleared).

(** ** More sample inputs *)

(** A vehicle activity with nothing but a line reference. *)
Definition sampleJourney : Xml.JourneyElt :=
  Xml.mkJourney None (Some "63"%string) None None None None None.

(** The vehicle feed answers 503. *)
Definition envFeedDown : Env :=
  mkEnv (fun _ => 1 # 2)%Q (fun _ => 1700000000000)
        (fun url =>
           if String.eqb url vehicleUrl then Some (Response.mk 503 Malformed)
           else None)
        (fun _ => 0%nat).

(** Seven minutes after [envDown 1700000000000], the upstream still
    unreachable. *)
Definition envLater : Env := envDown 1700000420000.

(** A document with two services: line 63 with an id, then a service with
    two lines. *)
Definition sampleBrokenDocument : Xml.Root :=
  Xml.mkRoot
    (Some (Xml.mkTxc (Some (Some (Many
       [ Xml.mkService
           (Some (Some (One (Xml.mkLine (Some (Some "63"%string)) (Some "63"%string)))))
           (Some (Some (One (Xml.mkPattern true))));
         Xml.mkService
           (Some (Some (Many [Xml.mkLine None (Some "29"%string);
                              Xml.mkLine None (Some "63"%string)])))
           None ])))))
    None.

(** The world after [console.warn(s)]. *)
Definition logged (w : World) (s : Signal) : World :=
  mkWorld (cache w) (vehicleCache w) (cacheHit w) (console w ++ [s])
          (drawn w) (ticks w).

(** The error the metadata step of [fetchTimetableData] raises for a
    dataset, if any: the request is rejected, the status is not 2xx, the
    body is not JSON, or the JSON is [null]. *)
Definition metadataError (env : Env) (datasetId : string) : option JsError :=
  match network env (metadataUrl datasetId) with
  | None => Some NetworkError
  | Some r =>
      if Response.ok r then
        match Response.body r with
        | JsonBody JNull => Some TypeError
        | JsonBody (JObject _) => None
        | _ => Some SyntaxError
        end
      else Some (DatasetAPIReturned (Response.status r))
  end.

(** The vehicle feed is up and reports the single journey [sampleJourney]. *)
Definition envFeedUp : Env :=
  mkEnv (fun _ => 1 # 2)%Q (fun _ => 1700000000000)
        (fun url =>
           if String.eqb url vehicleUrl then
             Some (Response.mk 200
                     (XmlBody (Xml.mkRoot None
                        (Some (Xml.mkSiri (Some (Some (One (Xml.mkActivity
                           (Some sampleJourney))))))))))
           else None)
        (fun _ => 0%nat).

(** No service of [kept] is later than a service of [dropped]. *)
Definition earliest (kept dropped : list Service) : Prop :=
  Forall (fun x => Forall (fun y => serviceTime x <= serviceTime y) dropped) kept.

(** Every list in the timetable cache has a service. *)
Definition stocked (w : World) : Prop :=
  forall k e, cache w !! k = Some e -> NodeCache.v e <> [].

(** * Reasoning rules for [Js] *)

Section Rules.
Context {A B : Type}.
Variables (env : Env).

Lemma spec_ret (a : A) w (Q : A -> World -> Prop) E :
  Q a w -> spec (ret a) env w Q E.
Proof. intros H. exact H. Qed.

Lemma spec_throw e w (Q : A -> World -> Prop) (E : JsError -> World -> Prop) :
  E e w -> spec (throw e) env w Q E.
Proof. intros H. exact H. Qed.

Lemma spec_bind (m : Js A) (k : A -> Js B) w Q E :
  spec m env w (fun a w' => spec (k a) env w' Q E) E ->
  spec (bind m k) env w Q E.
Proof.
  unfold spec, bind. destruct (m env w) as [[a|e] w']; intros H; exact H.
Qed.

Lemma spec_try (m : Js A) (h : JsError -> Js A) w Q E :
  spec m env w Q (fun e w' => spec (h e) env w' Q E) ->
  spec (try_catch m h) env w Q E.
Proof.
  unfold spec, try_catch. destruct (m env w) as [[a|e] w']; intros H; exact H.
Qed.

Lemma spec_mono (m : Js A) w (Q Q' : A -> World -> Prop) (E E' : JsError -> World -> Prop) :
  spec m env w Q E ->
  (forall a w', Q a w' -> Q' a w') ->
  (forall e w', E e w' -> E' e w') ->
  spec m env w Q' E'.
Proof.
  unfold spec. destruct (m env w) as [[a|e] w']; intros H HQ HE; auto.
Qed.

Lemma returns_run (m : Js A) w Q :
  returns m env w Q -> exists a w', m env w = (Returned a, w') /\ Q a w'.
Proof.
  unfold returns, spec. destruct (m env w) as [[a|e] w']; intros H; [eauto | destruct H].
Qed.

End Rules.

Lemma keeps_refl w : keeps w w.
Proof. split; reflexivity. Qed.

Lemma keeps_trans w1 w2 w3 : keeps w1 w2 -> keeps w2 w3 -> keeps w1 w3.
Proof. intros [H1 H2] [H3 H4]. split; congruence. Qed.

(** Step through [x <- m ;; k] with a proved fact about [m]. *)
Ltac js_bind H :=
  apply spec_bind; eapply spec_mono; [ apply H | cbv beta | cbv beta ].

Section Primitives.
Variables (env : Env).

Lemma Math_random_returns w :
  returns Math_random env w (fun r w' =>
    r = random env (drawn w) /\ keeps w w' /\
    drawn w' = S (drawn w) /\ ticks w' = ticks w /\ console w' = console w /\
    vehicleCache w' = vehicleCache w).
Proof. repeat split. Qed.

Lemma Date_now_returns w :
  returns Date_now env w (fun now w' =>
    now = clock env (ticks w) /\ keeps w w' /\
    drawn w' = drawn w /\ ticks w' = S (ticks w) /\ console w' = console w /\
    vehicleCache w' = vehicleCache w).
Proof. repeat split. Qed.

Lemma console_warn_returns s w :
  returns (console_warn s) env w (fun _ w' =>
    keeps w w' /\ console w' = console w ++ [s] /\
    drawn w' = drawn w /\ ticks w' = ticks w /\ vehicleCache w' = vehicleCache w).
Proof. repeat split. Qed.

Lemma fetch_spec url w :
  spec (fetch url) env w
    (fun r w' => w' = w /\ network env url = Some r)
    (fun e w' => w' = w /\ e = NetworkError /\ network env url = None).
Proof. unfold spec, fetch. destruct (network env url); auto. Qed.

Lemma vehicleCache_get_keeps key w :
  returns (vehicleCache_get key) env w (fun _ w' => keeps w w').
Proof.
  unfold returns, spec, vehicleCache_get, bind, get_vehicleCache. cbn.
  destruct (vehicleCache w !! key) as [e|]; cbn; [|apply keeps_refl].
  destruct (NodeCache.t e =? 0); cbn; [apply keeps_refl|].
  destruct (NodeCache.fresh e _); cbn; split; reflexivity.
Qed.

Lemma vehicleCache_set_keeps key value ttl w :
  returns (vehicleCache_set key value ttl) env w (fun _ w' => keeps w w').
Proof. split; reflexivity. Qed.
End Primitives.

(** * Numbers *)

Lemma Qltb_lt x y : Qltb x y = true <-> (x < y)%Q.
Proof. unfold Qltb, Qlt. apply Z.ltb_lt. Qed.

Lemma Qltb_nlt x y : Qltb x y = false <-> ~ (x < y)%Q.
Proof. rewrite <- Qltb_lt. destruct (Qltb x y); split; congruence. Qed.

(** Truncation stays between any two integers that enclose the number. *)
Lemma Date_of_between (a b : Z) (x : Q) :
  (inject_Z a <= x)%Q -> (x <= inject_Z b)%Q -> a <= Date_of x <= b.
Proof.
  destruct x as [n d]. unfold Qle, Date_of. cbn. intros Ha Hb.
  rewrite Z.mul_1_r in Ha, Hb.
  assert (Hd : 0 < Z.pos d) by lia.
  split.
  - rewrite <- (Z.quot_mul a (Z.pos d)) by lia.
    apply Z.quot_le_mono; lia.
  - rewrite <- (Z.quot_mul b (Z.pos d)) by lia.
    apply Z.quot_le_mono; lia.
Qed.

(** A departure moved by a variation within [-m, m] lands within [m]
    milliseconds of it. *)
Lemma Date_of_variation (z m : Z) (v : Q) :
  (- inject_Z m <= v)%Q -> (v <= inject_Z m)%Q ->
  z - m <= Date_of (inject_Z z + v) <= z + m.
Proof.
  intros Hlo Hhi. apply Date_of_between.
  - unfold Z.sub. rewrite inject_Z_plus, inject_Z_opp. lra.
  - rewrite inject_Z_plus. lra.
Qed.

Lemma variation_2min (r : Q) :
  (0 <= r)%Q -> (r < 1)%Q ->
  (- inject_Z 120000 <= (r - (1 # 2)) * 4 * 60000)%Q /\
  ((r - (1 # 2)) * 4 * 60000 <= inject_Z 120000)%Q.
Proof. intros H0 H1. unfold inject_Z. split; lra. Qed.

(** [determineStatus] computes the rule of the specification. *)
Lemma determineStatus_rule (scheduled estimatedAt : Z) :
  delayRule (delta scheduled estimatedAt) (determineStatus scheduled estimatedAt).
Proof.
  unfold determineStatus, delta.
  set (d := (inject_Z (estimatedAt - scheduled) / 60000)%Q).
  destruct (Qltb (Qabs d) 2) eqn:H2.
  { apply Qltb_lt in H2. pose proof H2 as H2'. apply Qabs_Qlt_condition in H2'.
    repeat split; intros; first [reflexivity | lra | tauto]. }
  apply Qltb_nlt in H2.
  destruct (Qltb 5 d) eqn:H5.
  { apply Qltb_lt in H5. repeat split; intros; first [reflexivity | tauto | lra]. }
  apply Qltb_nlt in H5.
  destruct (Qltb d (-3)) eqn:H3.
  { apply Qltb_lt in H3. repeat split; intros; first [reflexivity | tauto | lra]. }
  apply Qltb_nlt in H3.
  repeat split; intros; first [reflexivity | tauto].
Qed.

(** * Sorting *)

Section Sorting.
Context {A : Type} (key : A -> Z).

Lemma insertBy_elem_of x y (l : list A) :
  y ∈ insertBy key x l <-> y = x \/ y ∈ l.
Proof.
  induction l as [|z l IH]; cbn.
  - rewrite list_elem_of_singleton, elem_of_nil. tauto.
  - destruct (key x <=? key z).
    + rewrite !elem_of_cons. tauto.
    + rewrite !elem_of_cons, IH. tauto.
Qed.

Lemma insertBy_sorted x (l : list A) :
  sortedBy key l -> sortedBy key (insertBy key x l).
Proof.
  unfold sortedBy. induction l as [|y l IH]; cbn; intros Hs.
  - repeat constructor.
  - inversion Hs as [|? ? Hl Hy]; subst.
    destruct (key x <=? key y) eqn:Hle.
    + apply Z.leb_le in Hle. constructor; [exact Hs|].
      constructor; [exact Hle|].
      eapply Forall_impl; [exact Hy|]. cbn. intros; lia.
    + apply Z.leb_gt in Hle. constructor; [auto|].
      apply Forall_forall. intros z Hz.
      apply insertBy_elem_of in Hz as [->|Hz]; [lia|].
      rewrite Forall_forall in Hy. auto.
Qed.

Lemma sortBy_sorted (l : list A) : sortedBy key (sortBy key l).
Proof.
  induction l as [|x l IH]; cbn.
  - constructor.
  - apply insertBy_sorted, IH.
Qed.

Lemma insertBy_Permutation x (l : list A) : insertBy key x l ≡ₚ x :: l.
Proof.
  induction l as [|y l IH]; cbn; [reflexivity|].
  destruct (key x <=? key y); [reflexivity|].
  rewrite IH. apply perm_swap.
Qed.

Lemma sortBy_Permutation (l : list A) : sortBy key l ≡ₚ l.
Proof.
  induction l as [|x l IH]; cbn; [reflexivity|].
  rewrite insertBy_Permutation. by rewrite IH.
Qed.

Lemma sortBy_Forall (P : A -> Prop) (l : list A) :
  Forall P l -> Forall P (sortBy key l).
Proof. intros H. by rewrite sortBy_Permutation. Qed.

Lemma sortedBy_take n (l : list A) : sortedBy key l -> sortedBy key (take n l).
Proof.
  unfold sortedBy. revert n. induction l as [|x l IH]; intros [|n] Hs; cbn;
    try constructor.
  - inversion Hs; subst. auto.
  - inversion Hs; subst. by apply Forall_take.
Qed.

(** What [sort] then [slice(0, n)] gives. *)
Lemma top_sorted n (l : list A) (P : A -> Prop) :
  Forall P l ->
  sortedBy key (take n (sortBy key l)) /\
  (length (take n (sortBy key l)) <= n)%nat /\
  Forall P (take n (sortBy key l)).
Proof.
  intros HP. split; [|split].
  - apply sortedBy_take, sortBy_sorted.
  - rewrite length_take. lia.
  - apply Forall_take, sortBy_Forall, HP.
Qed.
End Sorting.

(** * The schedule parser *)

Section Methods.
Variable env : Env.

(** The [count] departures [generateDepartureTimes] synthesizes are [g];
    it returns those of them that lie after [startTime]. *)
Lemma generateDepartureTimes_from_returns startTime frequency n :
  forall i times w,
    returns (generateDepartureTimes_from startTime frequency i n times) env w
      (fun r w' =>
         keeps w w' /\ ticks w' = ticks w /\
         exists g,
           length g = n /\
           r = times ++ filter (fun c => startTime < TimeData.estimated c) g /\
           forall (j : nat) c, g !! j = Some c ->
             TimeData.scheduled c = startTime + frequency * (i + Z.of_nat j) * 60000 /\
             timeDataOK c /\
             (unitRandom env ->
              Z.abs (TimeData.estimated c - TimeData.scheduled c) <= 120000)).
Proof.
  induction n as [|n IH]; intros i times w; cbn [generateDepartureTimes_from].
  - apply spec_ret. split; [apply keeps_refl|]. split; [reflexivity|].
    exists []. split; [reflexivity|]. split; [by rewrite app_nil_r|].
    intros j c Hj. by rewrite lookup_nil in Hj.
  - js_bind Math_random_returns; [|tauto].
    intros r w1 (-> & Hk & _ & Ht & _).
    eapply spec_mono; [apply IH| |tauto]. cbv beta.
    intros out w2 (Hk2 & Ht2 & g & Hlen & -> & Hg).
    split; [eapply keeps_trans; eassumption|]. split; [congruence|].
    set (departureTime := startTime + frequency * i * 60000).
    set (adjustedTime := Date_of _).
    exists (TimeData.mk departureTime adjustedTime
              (determineStatus departureTime adjustedTime) :: g).
    split; [cbn; by rewrite Hlen|]. split.
    + rewrite filter_cons. cbn [TimeData.estimated].
      destruct (startTime <? adjustedTime) eqn:Hlt.
      * apply Z.ltb_lt in Hlt. rewrite decide_True by exact Hlt.
        by rewrite <- app_assoc.
      * apply Z.ltb_ge in Hlt. rewrite decide_False by lia. reflexivity.
    + intros [|j] c Hj; cbn in Hj.
      * inversion Hj; subst c. cbn. split; [unfold departureTime; f_equal; lia|].
        split; [reflexivity|]. intros Hr.
        destruct (Hr (drawn w)) as [H0 H1].
        destruct (variation_2min _ H0 H1) as [Hlo Hhi].
        pose proof (Date_of_variation departureTime 120000 _ Hlo Hhi) as Hb.
        fold adjustedTime in Hb. lia.
      * destruct (Hg j c Hj) as (Hs & Hok & Hb). split; [rewrite Hs; f_equal; lia|].
        split; [exact Hok|]. exact Hb.
Qed.

Lemma generateDepartureTimes_returns startTime frequency count w :
  returns (generateDepartureTimes startTime frequency count) env w
    (fun r w' =>
       keeps w w' /\ ticks w' = ticks w /\
       exists g,
         length g = count /\
         r = filter (fun c => startTime < TimeData.estimated c) g /\
         forall (j : nat) c, g !! j = Some c ->
           TimeData.scheduled c = startTime + frequency * Z.of_nat j * 60000 /\
           timeDataOK c /\
           (unitRandom env ->
            Z.abs (TimeData.estimated c - TimeData.scheduled c) <= 120000)).
Proof.
  unfold generateDepartureTimes.
  eapply spec_mono; [apply generateDepartureTimes_from_returns| |tauto]. cbv beta.
  intros r w' (Hk & Ht & g & Hlen & -> & Hg). split; [exact Hk|]. split; [exact Ht|].
  exists g. split; [exact Hlen|]. split; [reflexivity|].
  intros j c Hj. destruct (Hg j c Hj) as (Hs & Hok & Hb).
  split; [rewrite Hs; f_equal|]; auto.
Qed.

Lemma filter_timeDataOK (P : TimeData.t -> Prop) `{!forall c, Decision (P c)} g :
  (forall (j : nat) c, g !! j = Some c -> timeDataOK c) ->
  Forall timeDataOK (filter P g).
Proof.
  intros Hg. apply Forall_forall. intros c Hc.
  apply list_elem_of_filter in Hc as [_ Hc].
  apply list_elem_of_lookup in Hc as [j Hj]. eauto.
Qed.

Lemma extractServiceTimes_loop_returns now service patterns :
  forall times w,
    Forall timeDataOK times ->
    returns (extractServiceTimes_loop now service patterns times) env w
      (fun r w' => keeps w w' /\ Forall timeDataOK (fst r)).
Proof.
  induction patterns as [|pattern rest IH]; intros times w Hok;
    cbn [extractServiceTimes_loop].
  - apply spec_ret. split; [apply keeps_refl | exact Hok].
  - destruct (Xml.TimingLinkRef pattern); [|by apply IH].
    destruct (lineNameOf service) as [lineName|e].
    + js_bind generateDepartureTimes_returns; [|tauto].
      intros new w1 (Hk & _ & g & _ & -> & Hg).
      eapply spec_mono; [apply IH| |tauto].
      * apply Forall_app. split; [exact Hok|].
        apply filter_timeDataOK. intros j c Hj. apply (Hg j c Hj).
      * cbv beta. intros r w2 [Hk2 Hr]. split; [|exact Hr].
        eapply keeps_trans; eassumption.
    + apply spec_ret. split; [apply keeps_refl | exact Hok].
Qed.

Lemma extractServiceTimes_returns service w :
  returns (extractServiceTimes service) env w
    (fun r w' => keeps w w' /\ Forall timeDataOK r).
Proof.
  unfold extractServiceTimes.
  js_bind Date_now_returns; [|tauto]. intros now w1 (_ & Hk & _).
  destruct (Xml.StandardService service) as [[journeyPattern|]|];
    try (apply spec_ret; split; [exact Hk | constructor]).
  js_bind extractServiceTimes_loop_returns; [constructor| |tauto].
  intros [times [e|]] w2 [Hk2 Hr]; cbn in Hr.
  - js_bind console_warn_returns; [|tauto]. intros _ w3 (Hk3 & _).
    apply spec_ret. split; [|exact Hr].
    eapply keeps_trans; [|exact Hk3]. eapply keeps_trans; eassumption.
  - apply spec_ret. split; [|exact Hr]. eapply keeps_trans; eassumption.
Qed.

Lemma goodTimetables_empty : goodTimetables ∅.
Proof. intros k l H. by rewrite lookup_empty in H. Qed.

Lemma goodTimetables_insert k l tt :
  Forall timeDataOK l -> goodTimetables tt -> goodTimetables (<[k := l]> tt).
Proof.
  intros Hl Htt k' l' H. destruct (decide (k = k')) as [->|Hne].
  - rewrite lookup_insert_eq in H. by inversion H; subst.
  - rewrite lookup_insert_ne in H by exact Hne. eauto.
Qed.

Lemma goodTimetables_union tt1 tt2 :
  goodTimetables tt1 -> goodTimetables tt2 -> goodTimetables (tt1 ∪ tt2).
Proof.
  intros H1 H2 k l H. apply lookup_union_Some_raw in H as [H|[_ H]]; eauto.
Qed.

Lemma parseTransXChange_loop_spec serviceArray :
  forall services w,
    goodTimetables services ->
    spec (parseTransXChange_loop serviceArray services) env w
      (fun r w' => keeps w w' /\ goodTimetables r)
      (fun _ w' => keeps w w').
Proof.
  induction serviceArray as [|[service|] rest IH]; intros services w Hs;
    cbn [parseTransXChange_loop].
  - apply spec_ret. split; [apply keeps_refl | exact Hs].
  - destruct (Xml.Lines service) as [[[l|ls]|]|]; try by apply IH.
    + destruct (Xml.attrs l) as [id|]; [|apply spec_throw, keeps_refl].
      destruct (js_or (js_or id (Xml.LineName l)) None) as [lineRef|]; [|by apply IH].
      apply spec_bind. eapply spec_mono; [apply extractServiceTimes_returns| |contradiction].
      cbv beta. intros times w1 [Hk Hok].
      eapply spec_mono; [apply IH| |].
      * by apply goodTimetables_insert.
      * cbv beta. intros r w2 [Hk2 Hr]. split; [|exact Hr].
        eapply keeps_trans; eassumption.
      * cbv beta. intros _ w2 Hk2. eapply keeps_trans; eassumption.
    + apply spec_throw, keeps_refl.
  - by apply IH.
Qed.

Lemma parseTransXChange_returns xmlData w :
  returns (parseTransXChange xmlData) env w
    (fun r w' => keeps w w' /\ goodTimetables r).
Proof.
  unfold parseTransXChange. apply spec_try. apply spec_bind.
  assert (Hh : forall e w', keeps w w' ->
    spec (console_warn (ErrorParsingTransXChange e);; ret ∅) env w'
      (fun r w'' => keeps w w'' /\ goodTimetables r) (fun _ _ => False)).
  { intros e w' Hk. js_bind console_warn_returns; [|tauto].
    intros _ w2 (Hk2 & _). apply spec_ret.
    split; [eapply keeps_trans; eassumption | apply goodTimetables_empty]. }
  destruct xmlData as [j|x|]; cbn [parseStringPromise];
    try (apply spec_throw, Hh, keeps_refl).
  apply spec_ret.
  destruct (Xml.TransXChange x) as [transXChange|];
    [|apply spec_ret; split; [apply keeps_refl | apply goodTimetables_empty]].
  destruct (Xml.Services transXChange) as [service|];
    [|apply spec_ret; split; [apply keeps_refl | apply goodTimetables_empty]].
  eapply spec_mono; [apply parseTransXChange_loop_spec, goodTimetables_empty| |].
  - cbv beta. tauto.
  - cbv beta. intros e w' Hk. by apply Hh.
Qed.

Lemma fetchTimetableData_loop_returns datasetIds :
  forall allTimetables w,
    goodTimetables allTimetables ->
    returns (fetchTimetableData_loop datasetIds allTimetables) env w
      (fun r w' => keeps w w' /\ goodTimetables r).
Proof.
  induction datasetIds as [|datasetId rest IH]; intros allTimetables w Hall;
    cbn [fetchTimetableData_loop].
  - apply spec_ret. split; [apply keeps_refl | exact Hall].
  - apply spec_bind.
    assert (Hnext : forall tt w', keeps w w' -> goodTimetables tt ->
      spec (fetchTimetableData_loop rest tt) env w'
        (fun r w'' => keeps w w'' /\ goodTimetables r) (fun _ _ => False)).
    { intros tt w' Hk Htt. eapply spec_mono; [apply IH, Htt| |tauto].
      cbv beta. intros r w2 [Hk2 Hr]. split; [|exact Hr].
      eapply keeps_trans; eassumption. }
    assert (Hh : forall e w', keeps w w' ->
      spec (console_warn (FailedToFetchDataset datasetId e);; ret allTimetables) env w'
        (fun a w'' => spec (fetchTimetableData_loop rest a) env w''
           (fun r w3 => keeps w w3 /\ goodTimetables r) (fun _ _ => False))
        (fun _ _ => False)).
    { intros e w' Hk. js_bind console_warn_returns; [|tauto].
      intros _ w2 (Hk2 & _). apply spec_ret. apply Hnext; [|exact Hall].
      eapply keeps_trans; eassumption. }
    apply spec_try. apply spec_bind.
    eapply spec_mono; [apply fetch_spec | cbv beta | cbv beta].
    2:{ intros e w' (-> & _). apply Hh, keeps_refl. }
    intros metadataResponse w' (-> & _).
    apply spec_bind.
    destruct (Response.ok metadataResponse); [|apply spec_throw, Hh, keeps_refl].
    apply spec_ret. apply spec_bind. unfold json.
    destruct (Response.body metadataResponse) as [[|u]| |];
      try (apply spec_throw, Hh, keeps_refl).
    apply spec_ret. apply spec_bind. cbn [url_of]. apply spec_ret.
    destruct (js_or u None) as [url|];
      [|apply spec_ret, Hnext; [apply keeps_refl | exact Hall]].
    apply spec_bind.
    eapply spec_mono; [apply fetch_spec | cbv beta | cbv beta].
    2:{ intros e w' (-> & _). apply Hh, keeps_refl. }
    intros timetableResponse w' (-> & _).
    destruct (Response.ok timetableResponse);
      [|apply spec_ret, Hnext; [apply keeps_refl | exact Hall]].
    apply spec_bind.
    eapply spec_mono; [apply parseTransXChange_returns | cbv beta | by intros ? ? []].
    intros parsedData w' (Hk & Hp). apply spec_ret.
    apply Hnext; [exact Hk|]. by apply goodTimetables_union.
Qed.

(** [fetchTimetableData] never throws. *)
Lemma fetchTimetableData_returns datasetIds w :
  returns (fetchTimetableData datasetIds) env w
    (fun r w' => keeps w w' /\ goodTimetables r).
Proof. apply fetchTimetableData_loop_returns, goodTimetables_empty. Qed.

(** * The live feed *)

Lemma parseSIRIVM_loop_returns activities :
  forall vehicles w,
    returns (parseSIRIVM_loop activities vehicles) env w (fun _ w' => keeps w w').
Proof.
  induction activities as [|[[[journey|]]|] rest IH]; intros vehicles w;
    cbn [parseSIRIVM_loop]; try apply IH.
  - apply spec_ret, keeps_refl.
  - apply spec_bind.
    destruct (Xml.RecordedAtTime journey) as [t|].
    + apply spec_ret. apply IH.
    + eapply spec_mono; [apply Date_now_returns | cbv beta | tauto].
      intros now w1 (_ & Hk & _).
      eapply spec_mono; [apply IH | cbv beta | tauto].
      intros _ w2 Hk2. eapply keeps_trans; eassumption.
Qed.

Lemma parseSIRIVM_returns xmlData w :
  returns (parseSIRIVM xmlData) env w (fun _ w' => keeps w w').
Proof.
  unfold parseSIRIVM. apply spec_try. apply spec_bind.
  assert (Hh : forall e w', keeps w w' ->
    spec (console_warn (ErrorParsingSIRIVM e);; ret (@nil Vehicle.t)) env w'
      (fun _ w'' => keeps w w'') (fun _ _ => False)).
  { intros e w' Hk. js_bind console_warn_returns; [|tauto].
    intros _ w2 (Hk2 & _). apply spec_ret. eapply keeps_trans; eassumption. }
  destruct xmlData as [j|x|]; cbn [parseStringPromise];
    try (apply spec_throw, Hh, keeps_refl).
  apply spec_ret.
  destruct (Xml.Siri x) as [[[vehicleActivity|]]|];
    try (apply spec_ret, keeps_refl).
  eapply spec_mono; [apply parseSIRIVM_loop_returns | cbv beta; tauto | by intros ? ? []].
Qed.

(** [getVehiclePositions] never throws. *)
Lemma getVehiclePositions_returns w :
  returns getVehiclePositions env w (fun _ w' => keeps w w').
Proof.
  unfold getVehiclePositions.
  js_bind vehicleCache_get_keeps; [|tauto]. intros [vehicles|] w1 Hk.
  - apply spec_ret, Hk.
  - apply spec_try. apply spec_bind.
    assert (Hh : forall e w', keeps w w' ->
      spec (console_warn (FailedToFetchVehiclePositions e);; ret (@nil Vehicle.t)) env w'
        (fun _ w'' => keeps w w'') (fun _ _ => False)).
    { intros e w' Hk'. js_bind console_warn_returns; [|tauto].
      intros _ w2 (Hk2 & _). apply spec_ret. eapply keeps_trans; eassumption. }
    eapply spec_mono; [apply fetch_spec | cbv beta | cbv beta].
    2:{ intros e w' (-> & _). apply Hh, Hk. }
    intros response w' (-> & _).
    destruct (Response.ok response); [|apply spec_throw, Hh, Hk].
    apply spec_bind.
    eapply spec_mono; [apply parseSIRIVM_returns | cbv beta | by intros ? ? []].
    intros vehicles w2 Hk2.
    js_bind vehicleCache_set_keeps; [|tauto]. intros _ w3 Hk3.
    apply spec_ret.
    eapply keeps_trans; [|exact Hk3]. eapply keeps_trans; eassumption.
Qed.

(** * Fallback synthesis *)

Lemma statusOK_fallback rn dest op sched est :
  statusOK (mkService rn dest op sched (Some est) (determineStatus sched est) fallback).
Proof.
  unfold statusOK. cbn. rewrite decide_False by discriminate. eauto.
Qed.

Lemma generateFallbackForRoute_from_returns rn op now frequency dest n :
  forall i services w,
    returns (generateFallbackForRoute_from rn op now frequency dest i n services) env w
      (fun r w' =>
         keeps w w' /\ ticks w' = ticks w /\
         exists g,
           length g = n /\ r = services ++ g /\
           forall (j : nat) s, g !! j = Some s ->
             routeNumber s = rn /\ operator s = op /\ destination s = dest /\
             scheduledTime s = now + frequency * (i + Z.of_nat j) * 60000 /\
             estimatedTime s =
               Some (Date_of (inject_Z (scheduledTime s) +
                              (random env (drawn w + j) - (1 # 2)) * 6 * 60000)) /\
             source s = fallback /\ statusOK s).
Proof.
  induction n as [|n IH]; intros i services w; cbn [generateFallbackForRoute_from].
  - apply spec_ret. split; [apply keeps_refl|]. split; [reflexivity|].
    exists []. split; [reflexivity|]. split; [by rewrite app_nil_r|].
    intros j c Hj. by rewrite lookup_nil in Hj.
  - js_bind Math_random_returns; [|tauto].
    intros r w1 (-> & Hk & Hd & Ht & _).
    eapply spec_mono; [apply IH| |tauto]. cbv beta.
    intros out w2 (Hk2 & Ht2 & g & Hlen & -> & Hg).
    split; [eapply keeps_trans; eassumption|]. split; [congruence|].
    set (baseTime := now + frequency * i * 60000).
    set (est := Date_of _).
    exists (mkService rn dest op baseTime (Some est)
              (determineStatus baseTime est) fallback :: g).
    split; [cbn; by rewrite Hlen|]. split; [by rewrite <- app_assoc|].
    intros [|j] s Hj; cbn in Hj.
    + inversion Hj; subst s. cbn [routeNumber operator destination scheduledTime
                                    estimatedTime source].
      change (Z.of_nat 0) with 0. rewrite Z.add_0_r, Nat.add_0_r.
      split; [reflexivity|]. split; [reflexivity|]. split; [reflexivity|].
      split; [reflexivity|]. split; [reflexivity|]. split; [reflexivity|].
      apply statusOK_fallback.
    + destruct (Hg j s Hj) as (H1 & H2 & H3 & H4 & H5 & H6 & H7).
      repeat split; auto.
      * rewrite H4. f_equal. lia.
      * rewrite H5, Hd.
        replace (drawn w + S j)%nat with (S (drawn w) + j)%nat by lia. reflexivity.
Qed.

Lemma generateFallbackForRoute_returns rn op w :
  returns (generateFallbackForRoute rn op) env w
    (fun r w' =>
       keeps w w' /\
       exists g,
         length g = 4%nat /\ r = g /\
         forall (j : nat) s, g !! j = Some s ->
           routeNumber s = rn /\ operator s = op /\
           destination s = getDestinationForRoute rn /\
           scheduledTime s =
             clock env (ticks w) + estimateFrequency rn * Z.of_nat j * 60000 /\
           estimatedTime s =
             Some (Date_of (inject_Z (scheduledTime s) +
                            (random env (drawn w + j) - (1 # 2)) * 6 * 60000)) /\
           source s = fallback /\ statusOK s).
Proof.
  unfold generateFallbackForRoute.
  js_bind Date_now_returns; [|tauto]. intros now w1 (-> & Hk & Hd & _).
  eapply spec_mono; [apply generateFallbackForRoute_from_returns| |tauto]. cbv beta.
  intros r w2 (Hk2 & _ & g & Hlen & -> & Hg).
  split; [eapply keeps_trans; eassumption|].
  exists g. split; [exact Hlen|]. split; [reflexivity|].
  intros j s Hj. destruct (Hg j s Hj) as (H1 & H2 & H3 & H4 & H5 & H6 & H7).
  repeat split; auto. rewrite H5, Hd. reflexivity.
Qed.

(** What the synthesized services of one route have in common. *)
Lemma generateFallbackForRoute_shape rn op w :
  returns (generateFallbackForRoute rn op) env w
    (fun r w' =>
       keeps w w' /\ length r = 4%nat /\
       Forall (fun s => routeNumber s = rn /\ source s = fallback /\ statusOK s) r).
Proof.
  eapply spec_mono; [apply generateFallbackForRoute_returns| |tauto]. cbv beta.
  intros r w' (Hk & g & Hlen & -> & Hg). split; [exact Hk|]. split; [exact Hlen|].
  apply Forall_lookup. intros j s Hj.
  destruct (Hg j s Hj) as (H1 & _ & _ & _ & _ & H6 & H7). auto.
Qed.

Lemma getFallbackDataForStop_loop_returns stopConfig routes :
  forall allServices w,
    Forall (fun s => source s = fallback /\ statusOK s) allServices ->
    returns (getFallbackDataForStop_loop stopConfig routes allServices) env w
      (fun r w' =>
         keeps w w' /\ Forall (fun s => source s = fallback /\ statusOK s) r).
Proof.
  induction routes as [|routeNumber rest IH]; intros allServices w Hall;
    cbn [getFallbackDataForStop_loop].
  - apply spec_ret. split; [apply keeps_refl | exact Hall].
  - js_bind generateFallbackForRoute_shape; [|tauto].
    intros routeServices w1 (Hk & _ & Hr).
    eapply spec_mono; [apply IH| |tauto].
    + apply Forall_app. split; [exact Hall|].
      eapply Forall_impl; [exact Hr|]. cbn. tauto.
    + cbv beta. intros r w2 [Hk2 Hr2]. split; [|exact Hr2].
      eapply keeps_trans; eassumption.
Qed.

(** [getFallbackDataForStop] never throws; at most 6 services, sorted, all
    synthesized. *)
Lemma getFallbackDataForStop_returns stopId w :
  returns (getFallbackDataForStop stopId) env w
    (fun r w' =>
       keeps w w' /\ sortedByTime r /\ (length r <= 6)%nat /\
       Forall (fun s => source s = fallback /\ statusOK s) r).
Proof.
  unfold getFallbackDataForStop.
  destruct (lookupStop stops stopId) as [stopConfig|].
  - js_bind getFallbackDataForStop_loop_returns; [constructor| |tauto].
    intros allServices w1 [Hk Hall]. apply spec_ret. split; [exact Hk|].
    apply top_sorted, Hall.
  - apply spec_ret. split; [apply keeps_refl|].
    split; [constructor|]. split; [cbn; lia | constructor].
Qed.

(** * Live enhancement *)

Lemma calculateETA_returns vehicle w :
  returns (calculateETA vehicle) env w
    (fun minutes w' => keeps w w' /\ 1 <= minutes /\ ticks w' = ticks w).
Proof.
  unfold calculateETA.
  js_bind Math_random_returns; [|tauto]. intros r w1 (_ & Hk & _ & Ht & _).
  apply spec_ret. split; [exact Hk|]. split; [lia | exact Ht].
Qed.

Lemma enhanceWithVehicleData_returns vehicles services :
  forall w,
    returns (enhanceWithVehicleData services vehicles) env w
      (fun out w' => keeps w w' /\ Forall2 (enhanced env vehicles) services out).
Proof.
  induction services as [|service rest IH]; intros w; cbn [enhanceWithVehicleData].
  - apply spec_ret. split; [apply keeps_refl | constructor].
  - apply spec_bind.
    assert (Hrest : forall service' w1, keeps w w1 ->
      enhanced env vehicles service service' ->
      spec (rest' <- enhanceWithVehicleData rest vehicles;; ret (service' :: rest'))
        env w1
        (fun out w' => keeps w w' /\ Forall2 (enhanced env vehicles) (service :: rest) out)
        (fun _ _ => False)).
    { intros service' w1 Hk He. js_bind IH; [|tauto]. intros rest' w2 [Hk2 Hr].
      apply spec_ret. split; [eapply keeps_trans; eassumption|]. by constructor. }
    unfold enhanced at 1 in Hrest.
    destruct (matchingVehicles service vehicles) as [|vehicle others].
    + apply spec_ret. apply Hrest; [apply keeps_refl|]. repeat split.
    + apply spec_bind.
      destruct (returns_run env _ w _ (calculateETA_returns vehicle w))
        as (minutes & w1 & Hrun & Hk & Hmin & Ht).
      unfold spec at 1. rewrite Hrun.
      destruct (0 <? minutes) eqn:Hpos; [|apply Z.ltb_ge in Hpos; lia].
      js_bind Date_now_returns; [|tauto]. intros now w2 (-> & Hk2 & _).
      apply spec_ret. apply Hrest; [eapply keeps_trans; eassumption|].
      cbn. repeat split. exists w, w1, minutes. auto.
Qed.

(** * Aggregation for one stop *)

Lemma statusOK_timetable rn dest op td :
  timeDataOK td ->
  statusOK (mkService rn dest op (TimeData.scheduled td)
              (Some (TimeData.estimated td)) (TimeData.status td) timetable).
Proof.
  intros H. unfold statusOK. cbn. rewrite decide_False by discriminate. eauto.
Qed.

Lemma processBusServices_loop_returns stopConfig tt routes :
  forall services w,
    goodTimetables tt ->
    Forall (emitted tt) services ->
    returns (processBusServices_loop stopConfig routes tt services) env w
      (fun r w' => keeps w w' /\ Forall (emitted tt) r).
Proof.
  induction routes as [|routeNumber rest IH]; intros services w Htt Hs;
    cbn [processBusServices_loop].
  - apply spec_ret. split; [apply keeps_refl | exact Hs].
  - assert (Hfb :
      spec (fallbackServices <-
              generateFallbackForRoute routeNumber (head (operators stopConfig));;
            processBusServices_loop stopConfig rest tt (services ++ fallbackServices))
        env w (fun r w' => keeps w w' /\ Forall (emitted tt) r) (fun _ _ => False)).
    { js_bind generateFallbackForRoute_shape; [|tauto].
      intros fallbackServices w1 (Hk & _ & Hf).
      eapply spec_mono; [apply IH; [exact Htt|]| |tauto].
      - apply Forall_app. split; [exact Hs|].
        eapply Forall_impl; [exact Hf|]. cbn. intros s (_ & Hsrc & Hok).
        split; [exact Hok | by left].
      - cbv beta. intros r w2 [Hk2 Hr]. split; [|exact Hr].
        eapply keeps_trans; eassumption. }
    destruct (tt !! routeNumber) as [[|timeData more]|] eqn:Hlook; try exact Hfb.
    apply IH; [exact Htt|].
    apply Forall_app. split; [exact Hs|].
    apply Forall_fmap, Forall_forall. intros td Htd. cbn.
    split.
    + apply statusOK_timetable.
      pose proof (Htt _ _ Hlook) as Hall. rewrite Forall_forall in Hall. auto.
    + right. cbn. split; [reflexivity|]. rewrite Hlook. eauto.
Qed.

Lemma enhanced_statusOK vehicles s s' :
  statusOK s -> enhanced env vehicles s s' -> statusOK s'.
Proof.
  intros Hok (_ & _ & _ & _ & He).
  destruct (matchingVehicles s vehicles).
  - by subst s'.
  - destruct He as (Hst & Hsrc & _). unfold statusOK.
    rewrite decide_True by exact Hsrc. exact Hst.
Qed.


(** [processBusServices] never throws: at most 8 services, sorted, each an
    emitted service after enhancement. *)
Lemma processBusServices_returns stopConfig tt vehicles w :
  goodTimetables tt ->
  returns (processBusServices stopConfig tt vehicles) env w
    (fun r w' =>
       keeps w w' /\ goodList r /\
       Forall (fun s' => exists s, emitted tt s /\ enhanced env vehicles s s') r).
Proof.
  intros Htt. unfold processBusServices.
  js_bind processBusServices_loop_returns; [exact Htt|constructor| |tauto].
  intros services w1 [Hk Hs].
  js_bind enhanceWithVehicleData_returns; [|tauto].
  intros out w2 [Hk2 He]. apply spec_ret.
  split; [eapply keeps_trans; eassumption|].
  assert (Hout : Forall (fun s' => statusOK s' /\
            exists s, emitted tt s /\ enhanced env vehicles s s') out).
  { clear -Hs He. induction He as [|s s' l l' Hss' _ IH]; constructor.
    - inversion Hs; subst. split; [|eauto].
      eapply enhanced_statusOK; [|exact Hss']. by destruct H1.
    - apply IH. by inversion Hs. }
  destruct (top_sorted serviceTime 8 out _ Hout) as (H1 & H2 & H3).
  split; [split; [exact H1|split; [exact H2|]]|].
  - eapply Forall_impl; [exact H3|]. cbn. tauto.
  - eapply Forall_impl; [exact H3|]. cbn. tauto.
Qed.

(** * The timetable cache *)

Lemma cache_get_returns key w :
  returns (cache_get key) env w
    (fun r w' =>
       cacheHit w' = cacheHit w /\
       match cache w !! key with
       | None => r = None /\ w' = w
       | Some e =>
           if NodeCache.t e =? 0 then r = Some (NodeCache.v e) /\ w' = w
           else
             ticks w' = S (ticks w) /\
             if NodeCache.fresh e (clock env (ticks w))
             then r = Some (NodeCache.v e) /\ cache w' = cache w
             else r = None /\ cache w' = delete key (cache w)
       end).
Proof.
  unfold returns, spec, cache_get, bind, get_cache. cbn.
  destruct (cache w !! key) as [e|]; cbn; [|auto].
  destruct (NodeCache.t e =? 0); cbn; [auto|].
  destruct (NodeCache.fresh e _); cbn; auto.
Qed.

Lemma cache_set_returns key value ttl w :
  returns (cache_set key value ttl) env w
    (fun _ w' =>
       cache w' = <[key := NodeCache.wrap value ttl (clock env (ticks w))]> (cache w) /\
       cacheHit w' = cacheHit w /\ ticks w' = S (ticks w)).
Proof. repeat split. Qed.

Lemma goodCache_empty : goodCache ∅.
Proof. intros k e H. by rewrite lookup_empty in H. Qed.

Lemma goodCache_delete key c : goodCache c -> goodCache (delete key c).
Proof.
  intros Hc k e H. apply lookup_delete_Some in H as [_ H]. eauto.
Qed.

Lemma goodCache_insert stopId l t c :
  registered stopId -> goodList l -> goodCache c ->
  goodCache (<[cacheKey stopId := NodeCache.mkEntry l t]> c).
Proof.
  intros Hreg Hl Hc k e H. destruct (decide (cacheKey stopId = k)) as [<-|Hne].
  - rewrite lookup_insert_eq in H. inversion H; subst. cbn. eauto.
  - rewrite lookup_insert_ne in H by exact Hne. eauto.
Qed.

Lemma cacheKey_inj a b : cacheKey a = cacheKey b -> a = b.
Proof. unfold cacheKey. cbn. intros H. by inversion H. Qed.

Lemma goodCache_unregistered c stopId :
  goodCache c -> ~ registered stopId -> c !! cacheKey stopId = None.
Proof.
  intros Hc Hn. destruct (c !! cacheKey stopId) as [e|] eqn:H; [|reflexivity].
  destruct (Hc _ _ H) as [(id & Hreg & Heq) _].
  apply cacheKey_inj in Heq. by subst.
Qed.

Lemma getBusTimesForStop_cached_returns stopId w :
  goodWorld w ->
  returns (getBusTimesForStop_cached stopId) env w
    (fun r w' =>
       goodWorld w' /\
       match r with
       | Some services =>
           cacheHit w' = true /\ cache w' = cache w /\
           exists e, cache w !! cacheKey stopId = Some e /\
                     NodeCache.v e = services
       | None =>
           cacheHit w' = false /\
           (cache w !! cacheKey stopId = None -> cache w' = cache w)
       end).
Proof.
  intros Hw. unfold getBusTimesForStop_cached.
  js_bind cache_get_returns; [|tauto]. intros cached w1 [_ Hget].
  assert (Hw1 : goodWorld w1 /\
    match cached with
    | Some services =>
        cache w1 = cache w /\
        exists e, cache w !! cacheKey stopId = Some e /\ NodeCache.v e = services
    | None => cache w !! cacheKey stopId = None -> cache w1 = cache w
    end).
  { unfold goodWorld in *. destruct (cache w !! cacheKey stopId) as [e|] eqn:Hl.
    - destruct (NodeCache.t e =? 0).
      + destruct Hget as [-> ->]. eauto.
      + destruct Hget as [_ Hget]. destruct (NodeCache.fresh e _).
        * destruct Hget as [-> ->]. eauto.
        * destruct Hget as [-> ->]. split; [by apply goodCache_delete | discriminate].
    - destruct Hget as [-> ->]. auto. }
  destruct Hw1 as [Hw1 Hc]. destruct cached as [services|].
  - apply spec_bind. apply spec_ret. split; [exact Hw1|]. split; [reflexivity|].
    exact Hc.
  - apply spec_bind. apply spec_ret. split; [exact Hw1|]. split; [reflexivity|].
    exact Hc.
Qed.

(** The [try] block never throws. *)
Lemma getBusTimesForStop_try_returns stopId stopConfig w :
  lookupStop stops stopId = Some stopConfig ->
  goodWorld w ->
  returns (getBusTimesForStop_try stopId stopConfig) env w
    (fun r w' =>
       goodWorld w' /\ goodList r /\ cacheHit w' = cacheHit w /\
       cache w' =
         <[cacheKey stopId := NodeCache.wrap r CACHE_TTL (lastReading env w')]> (cache w)).
Proof.
  intros Hcfg Hw. unfold getBusTimesForStop_try.
  js_bind fetchTimetableData_returns; [|tauto]. intros tt w1 [[Hc1 Hh1] Htt].
  js_bind getVehiclePositions_returns; [|tauto]. intros vehicles w2 [Hc2 Hh2].
  js_bind processBusServices_returns; [exact Htt| |tauto].
  intros busServices w3 ([Hc3 Hh3] & Hgood & _).
  js_bind cache_set_returns; [|tauto]. intros _ w4 (Hc4 & Hh4 & Ht4).
  apply spec_ret.
  assert (Hlast : lastReading env w4 = clock env (ticks w3)).
  { unfold lastReading. by rewrite Ht4. }
  rewrite Hlast.
  assert (Hc : cache w3 = cache w) by congruence.
  rewrite Hc in Hc4.
  split; [|split; [exact Hgood|split; [congruence | exact Hc4]]].
  unfold goodWorld. rewrite Hc4. unfold NodeCache.wrap.
  apply goodCache_insert; [unfold registered; rewrite Hcfg; eauto | exact Hgood | exact Hw].
Qed.

Lemma goodList_fallback l :
  sortedByTime l -> (length l <= 6)%nat ->
  Forall (fun s => source s = fallback /\ statusOK s) l -> goodList l.
Proof.
  intros Hs Hl Hf. split; [exact Hs|]. split; [lia|].
  eapply Forall_impl; [exact Hf|]. cbn. tauto.
Qed.

(** The [catch] block: the pure fallback list, cached for 60 seconds. *)
Lemma getBusTimesForStop_catch_returns stopId e w :
  registered stopId ->
  goodWorld w ->
  returns (getBusTimesForStop_catch stopId e) env w
    (fun r w' =>
       goodWorld w' /\
       sortedByTime r /\ (length r <= 6)%nat /\
       Forall (fun s => source s = fallback /\ statusOK s) r /\
       cacheHit w' = cacheHit w /\
       cache w' =
         <[cacheKey stopId := NodeCache.wrap r 60 (lastReading env w')]> (cache w)).
Proof.
  intros Hreg Hw. unfold getBusTimesForStop_catch.
  js_bind console_warn_returns; [|tauto]. intros _ w1 ([Hc1 Hh1] & _).
  js_bind getFallbackDataForStop_returns; [|tauto].
  intros fallbackData w2 ([Hc2 Hh2] & Hs & Hl & Hf).
  js_bind cache_set_returns; [|tauto]. intros _ w3 (Hc3 & Hh3 & Ht3).
  apply spec_ret.
  assert (Hlast : lastReading env w3 = clock env (ticks w2)).
  { unfold lastReading. by rewrite Ht3. }
  rewrite Hlast.
  assert (Hc : cache w2 = cache w) by congruence.
  rewrite Hc in Hc3.
  split; [|repeat split; try assumption; congruence].
  unfold goodWorld. rewrite Hc3. unfold NodeCache.wrap.
  apply goodCache_insert; [exact Hreg | by apply goodList_fallback | exact Hw].
Qed.

Lemma getBusTimesForStop_fresh_spec stopId w :
  goodWorld w ->
  spec (getBusTimesForStop_fresh stopId) env w
    (fun r w' =>
       registered stopId /\ goodWorld w' /\ goodList r /\
       cacheHit w' = cacheHit w /\
       cache w' =
         <[cacheKey stopId := NodeCache.wrap r CACHE_TTL (lastReading env w')]> (cache w))
    (fun e w' => ~ registered stopId /\ e = UnknownStopID stopId /\ w' = w).
Proof.
  intros Hw. unfold getBusTimesForStop_fresh, registered.
  destruct (lookupStop stops stopId) as [stopConfig|] eqn:Hcfg.
  - apply spec_try.
    eapply spec_mono; [by apply getBusTimesForStop_try_returns| |by intros ? ? []].
    cbv beta. intros r w' H. split; [eauto | exact H].
  - apply spec_throw. split; [|auto]. by intros [? ?].
Qed.

Lemma getBusTimesForStop_spec stopId w :
  goodWorld w ->
  spec (getBusTimesForStop stopId) env w
    (fun r w' =>
       registered stopId /\ goodWorld w' /\ goodList r /\
       exists e, cache w' !! cacheKey stopId = Some e /\ NodeCache.v e = r)
    (fun e w' =>
       ~ registered stopId /\ e = UnknownStopID stopId /\
       cache w' = cache w /\ cacheHit w' = false).
Proof.
  intros Hw. unfold getBusTimesForStop.
  js_bind getBusTimesForStop_cached_returns; [exact Hw| |tauto].
  intros [services|] w1 [Hw1 Hc].
  - destruct Hc as (_ & Hc & e & He & Hv). apply spec_ret.
    destruct (Hw _ _ He) as [(id & Hreg & Hid) Hgood].
    apply cacheKey_inj in Hid. subst id.
    split; [exact Hreg|]. split; [exact Hw1|]. split; [by rewrite <- Hv|].
    exists e. by rewrite Hc.
  - destruct Hc as [Hhit Hc].
    eapply spec_mono; [by apply getBusTimesForStop_fresh_spec| |]; cbv beta.
    + intros r w2 (Hreg & Hw2 & Hgood & _ & Hc2).
      split; [exact Hreg|]. split; [exact Hw2|]. split; [exact Hgood|].
      rewrite Hc2. eexists. split; [apply lookup_insert_eq | reflexivity].
    + intros e w2 (Hn & -> & ->). split; [exact Hn|]. split; [reflexivity|].
      split; [|exact Hhit]. apply Hc. by apply goodCache_unregistered.
Qed.

(** * All stops *)

Lemma getFallbackData_loop_returns stopIds :
  forall fallbackData w,
    goodWorld w ->
    Forall (fun p => goodList (snd p)) fallbackData ->
    returns (getFallbackData_loop stopIds fallbackData) env w
      (fun r w' => goodWorld w' /\ Forall (fun p => goodList (snd p)) r).
Proof.
  induction stopIds as [|stopId rest IH]; intros fallbackData w Hw Hf;
    cbn [getFallbackData_loop].
  - apply spec_ret. auto.
  - js_bind getFallbackDataForStop_returns; [|tauto].
    intros services w1 ([Hc _] & Hs & Hl & Hfb).
    apply IH; [unfold goodWorld in *; by rewrite Hc|].
    apply Forall_app. split; [exact Hf|]. constructor; [|constructor].
    by apply goodList_fallback.
Qed.

Lemma getFallbackData_returns w :
  goodWorld w ->
  returns getFallbackData env w
    (fun r w' => goodWorld w' /\ Forall (fun p => goodList (snd p)) r).
Proof.
  intros Hw. unfold getFallbackData.
  apply getFallbackData_loop_returns; [exact Hw | constructor].
Qed.

Lemma startAll_returns stopIds :
  forall w,
    goodWorld w ->
    returns (startAll stopIds) env w
      (fun started w' =>
         goodWorld w' /\ map fst started = stopIds /\
         Forall (fun p => forall l, snd p = Some l -> goodList l /\ registered (fst p))
                started).
Proof.
  induction stopIds as [|stopId rest IH]; intros w Hw; cbn [startAll].
  - apply spec_ret. split; [exact Hw|]. split; [reflexivity | constructor].
  - js_bind getBusTimesForStop_cached_returns; [exact Hw| |tauto].
    intros cached w1 [Hw1 Hc].
    js_bind IH; [exact Hw1| |tauto]. intros started w2 (Hw2 & Hids & Hgood).
    apply spec_ret. split; [exact Hw2|]. split; [cbn; by rewrite Hids|].
    constructor; [|exact Hgood]. cbn. intros l ->.
    destruct Hc as (_ & _ & e & He & <-).
    destruct (Hw _ _ He) as [(id & Hreg & Hid) Hg].
    apply cacheKey_inj in Hid. by subst id.
Qed.

Lemma finishAll_returns pending :
  forall allData w,
    goodWorld w ->
    Forall (fun p => goodList (snd p)) allData ->
    returns (finishAll pending allData) env w
      (fun r w' =>
         goodWorld w' /\ Forall (fun p => goodList (snd p)) r /\
         exists fetched, r = allData ++ fetched /\ map fst fetched = pending).
Proof.
  induction pending as [|stopId rest IH]; intros allData w Hw Hall; cbn [finishAll].
  - apply spec_ret. split; [exact Hw|]. split; [exact Hall|].
    exists []. by rewrite app_nil_r.
  - apply spec_bind.
    assert (Hnext : forall stopData w1, goodWorld w1 -> goodList stopData ->
      spec (finishAll rest (allData ++ [(stopId, stopData)])) env w1
        (fun r w' =>
           goodWorld w' /\ Forall (fun p => goodList (snd p)) r /\
           exists fetched, r = allData ++ fetched /\ map fst fetched = stopId :: rest)
        (fun _ _ => False)).
    { intros stopData w1 Hw1 Hg. eapply spec_mono; [apply IH| |tauto].
      - exact Hw1.
      - apply Forall_app. split; [exact Hall|]. constructor; [exact Hg | constructor].
      - cbv beta. intros r w2 (Hw2 & Hr & fetched & -> & Hf).
        split; [exact Hw2|]. split; [exact Hr|].
        exists ((stopId, stopData) :: fetched). rewrite <- app_assoc.
        split; [reflexivity|]. cbn. by rewrite Hf. }
    apply spec_try.
    eapply spec_mono; [by apply getBusTimesForStop_fresh_spec| |]; cbv beta.
    + intros r w1 (_ & Hw1 & Hg & _). by apply Hnext.
    + intros e w1 (_ & _ & ->).
      js_bind console_warn_returns; [|tauto]. intros _ w2 ([Hc2 _] & _).
      eapply spec_mono; [apply getFallbackDataForStop_returns| |tauto]. cbv beta.
      intros r w3 ([Hc3 _] & Hs & Hl & Hf).
      apply Hnext; [unfold goodWorld in *; by rewrite Hc3, Hc2|].
      by apply goodList_fallback.
Qed.

Lemma hitsOf_good started :
  Forall (fun p => forall l, snd p = Some l -> goodList l /\ registered (fst p)) started ->
  Forall (fun p => goodList (snd p)) (hitsOf started).
Proof.
  unfold hitsOf. induction 1 as [|[id [l|]] rest Hp _ IH]; cbn; auto.
  constructor; [|exact IH]. cbn. by apply Hp.
Qed.

(** [getAllClevelandCentreData] never throws.  The keys of the result: the
    stops answered from the cache, in registry order, then the stops that
    were fetched, in order of arrival. *)
Lemma getAllClevelandCentreData_returns w :
  goodWorld w ->
  returns getAllClevelandCentreData env w
    (fun allData w' =>
       goodWorld w' /\ Forall (fun p => goodList (snd p)) allData /\
       exists started fetched,
         map fst started = map fst stops /\
         allData = hitsOf started ++ fetched /\
         map fst fetched =
           sortBy (fun id => Z.of_nat (arrival env id)) (missesOf started)).
Proof.
  intros Hw. unfold getAllClevelandCentreData.
  js_bind startAll_returns; [exact Hw| |tauto].
  intros started w1 (Hw1 & Hids & Hgood).
  apply spec_bind. unfold completionOrder at 1. unfold spec at 1.
  eapply spec_mono; [apply finishAll_returns| |tauto].
  - exact Hw1.
  - by apply hitsOf_good.
  - cbv beta. intros r w2 (Hw2 & Hr & fetched & -> & Hf).
    split; [exact Hw2|]. split; [exact Hr|]. exists started, fetched. auto.
Qed.

(** * The earliest departure *)

Lemma scanService_scanned seen acc x :
  scanned seen acc -> scanned (seen ++ [x]) (scanService acc x).
Proof.
  destruct acc as [[s|] [t|]]; cbn; try contradiction.
  - intros [-> (before & after & -> & Hb & Ha)]. unfold scanService. cbn.
    destruct (serviceTime x <? serviceTime s) eqn:Hlt.
    + apply Z.ltb_lt in Hlt. split; [reflexivity|].
      exists (before ++ s :: after), []. split; [reflexivity|].
      split; [|constructor].
      apply Forall_app. split.
      * eapply Forall_impl; [exact Hb|]. cbn. intros; lia.
      * constructor; [lia|]. eapply Forall_impl; [exact Ha|]. cbn. intros; lia.
    + apply Z.ltb_ge in Hlt. split; [reflexivity|].
      exists before, (after ++ [x]). rewrite <- app_assoc. split; [reflexivity|].
      split; [exact Hb|]. apply Forall_app. split; [exact Ha|].
      constructor; [lia | constructor].
  - intros ->. unfold scanService. cbn. split; [reflexivity|].
    exists [], []. repeat split; constructor.
Qed.

Lemma fold_scanService_scanned l :
  forall seen acc,
    scanned seen acc -> scanned (seen ++ l) (fold_left scanService l acc).
Proof.
  induction l as [|x l IH]; intros seen acc H; cbn.
  - by rewrite app_nil_r.
  - replace (seen ++ x :: l) with ((seen ++ [x]) ++ l) by by rewrite <- app_assoc.
    apply IH, scanService_scanned, H.
Qed.

Lemma fold_stops_scanned values :
  forall seen acc,
    scanned seen acc ->
    scanned (seen ++ concat values)
      (fold_left (fun acc stopServices => fold_left scanService stopServices acc)
                 values acc).
Proof.
  induction values as [|l values IH]; intros seen acc H; cbn.
  - by rewrite app_nil_r.
  - rewrite app_assoc. apply IH, fold_scanService_scanned, H.
Qed.

(** The two nested loops keep the first service of least time. *)
Lemma scanAll_firstEarliest values :
  firstEarliest (concat values) (fst (scanAll values)).
Proof.
  pose proof (fold_stops_scanned values [] (None, None) eq_refl) as H.
  cbn [app] in H. unfold scanAll.
  destruct (fold_left _ values (None, None)) as [[s|] [t|]]; cbn in *;
    try contradiction; tauto.
Qed.

Lemma getNextBusGlobally_returns w :
  goodWorld w ->
  returns getNextBusGlobally env w
    (fun nextBus w' =>
       goodWorld w' /\
       exists allData w0,
         getAllClevelandCentreData env w = (Returned allData, w0) /\
         Forall (fun p => goodList (snd p)) allData /\
         nextBus = fst (scanAll (map snd allData))).
Proof.
  intros Hw. unfold getNextBusGlobally.
  destruct (returns_run env _ w _ (getAllClevelandCentreData_returns w Hw))
    as (allData & w1 & Hrun & Hw1 & Hgood & _).
  apply spec_bind. unfold spec at 1. rewrite Hrun.
  apply spec_ret. split; [exact Hw1|]. exists allData, w1. auto.
Qed.

End Methods.

(** * Worlds the server can be in *)

Lemma serve_goodWorld r env w : goodWorld w -> goodWorld (snd (serve r env w)).
Proof.
  intros Hw. destruct r as [|stopId| | |]; cbn [serve].
  - pose proof (getAllClevelandCentreData_returns env w Hw) as H.
    apply returns_run in H as (allData & w1 & Hrun & Hw1 & _).
    unfold try_catch, bind. rewrite Hrun. exact Hw1.
  - pose proof (getBusTimesForStop_spec env stopId w Hw) as H.
    unfold spec in H. unfold try_catch, bind.
    destruct (getBusTimesForStop stopId env w) as [[r|e] w1]; cbn.
    + tauto.
    + destruct H as (_ & _ & Hc & _). unfold goodWorld in *. by rewrite Hc.
  - pose proof (getNextBusGlobally_returns env w Hw) as H.
    apply returns_run in H as (r & w1 & Hrun & Hw1 & _).
    unfold try_catch, bind. rewrite Hrun. exact Hw1.
  - pose proof (getVehiclePositions_returns env w) as H.
    apply returns_run in H as (r & w1 & Hrun & Hc & _).
    unfold try_catch, bind. rewrite Hrun. cbn. unfold goodWorld in *. by rewrite Hc.
  - apply goodCache_empty.
Qed.

(** Every reachable world has a good cache. *)
Lemma reachable_goodWorld w : reachable w -> goodWorld w.
Proof.
  induction 1 as [|r env w _ IH].
  - apply goodCache_empty.
  - by apply serve_goodWorld.
Qed.

(** * The claims *)

Lemma unitRandom_envDown t : unitRandom (envDown t).
Proof. intros n. cbn. split; lra. Qed.







Lemma statusOK_statusRule s : statusOK s -> statusRule s.
Proof.
  unfold statusOK, statusRule. destruct (decide (source s = vehicle_tracking)); [auto|].
  intros (e & He & Hs). exists e. split; [exact He|]. rewrite Hs.
  apply determineStatus_rule.
Qed.

Lemma goodList_statusRule l : goodList l -> Forall statusRule l.
Proof.
  intros (_ & _ & H). eapply Forall_impl; [exact H|]. apply statusOK_statusRule.
Qed.

Lemma elem_of_concat {A} (x : A) (ls : list (list A)) :
  x ∈ concat ls -> exists l, x ∈ l /\ l ∈ ls.
Proof.
  induction ls as [|l ls IH]; cbn; intros H.
  - by apply elem_of_nil in H.
  - apply elem_of_app in H as [H|H].
    + exists l. split; [exact H | apply list_elem_of_here].
    + destruct (IH H) as (l' & H1 & H2). exists l'. split; [exact H1|].
      by apply list_elem_of_further.
Qed.

Lemma firstEarliest_elem l s : firstEarliest l (Some s) -> s ∈ l.
Proof.
  intros (before & after & -> & _). apply elem_of_app. right. apply list_elem_of_here.
Qed.

(** C3. In every world the server can be in, every service returned by the
    per-stop query, the all-stops query, the next-bus query and the
    fallback generators carries the status the delay rule gives for its
    scheduled and estimated times, unless its source is [vehicle_tracking],
    in which case its status is [live]. *)
Theorem status_follows_rule env w :
  reachable w ->
  (forall stopId l w',
     getBusTimesForStop stopId env w = (Returned l, w') -> Forall statusRule l) /\
  (forall allData w',
     getAllClevelandCentreData env w = (Returned allData, w') ->
     Forall (fun p => Forall statusRule (snd p)) allData) /\
  (forall s w',
     getNextBusGlobally env w = (Returned (Some s), w') -> statusRule s) /\
  (forall stopId l w',
     getFallbackDataForStop stopId env w = (Returned l, w') -> Forall statusRule l) /\
  (forall data w',
     getFallbackData env w = (Returned data, w') ->
     Forall (fun p => Forall statusRule (snd p)) data).
Proof.
  intros Hreach. pose proof (reachable_goodWorld w Hreach) as Hw.
  split; [|split; [|split; [|split]]].
  - intros stopId l w' Hrun.
    pose proof (getBusTimesForStop_spec env stopId w Hw) as H.
    unfold spec in H. rewrite Hrun in H. destruct H as (_ & _ & Hg & _).
    by apply goodList_statusRule.
  - intros allData w' Hrun.
    destruct (returns_run env _ w _ (getAllClevelandCentreData_returns env w Hw))
      as (allData' & w1 & Hrun' & _ & Hg & _).
    rewrite Hrun' in Hrun. injection Hrun as <- <-.
    eapply Forall_impl; [exact Hg|]. intros p. apply goodList_statusRule.
  - intros s w' Hrun.
    destruct (returns_run env _ w _ (getNextBusGlobally_returns env w Hw))
      as (nextBus & w1 & Hrun' & _ & allData & w0 & _ & Hg & Hs).
    rewrite Hrun' in Hrun. injection Hrun as -> <-.
    pose proof (scanAll_firstEarliest (map snd allData)) as Hf.
    rewrite <- Hs in Hf. apply firstEarliest_elem in Hf.
    apply elem_of_concat in Hf as (l & Hsl & Hl).
    apply list_elem_of_fmap in Hl as (p & -> & Hp).
    rewrite Forall_forall in Hg. pose proof (goodList_statusRule _ (Hg p Hp)) as Hall.
    rewrite Forall_forall in Hall. auto.
  - intros stopId l w' Hrun.
    destruct (returns_run env _ w _ (getFallbackDataForStop_returns env stopId w))
      as (l' & w1 & Hrun' & _ & _ & _ & Hf).
    rewrite Hrun' in Hrun. injection Hrun as <- <-.
    eapply Forall_impl; [exact Hf|]. cbv beta. intros s [_ Hs].
    by apply statusOK_statusRule.
  - intros data w' Hrun.
    destruct (returns_run env _ w _ (getFallbackData_returns env w Hw))
      as (data' & w1 & Hrun' & _ & Hg).
    rewrite Hrun' in Hrun. injection Hrun as <- <-.
    eapply Forall_impl; [exact Hg|]. intros p. apply goodList_statusRule.
Qed.

Lemma status_follows_rule_witness :
  reachable initialWorld /\
  (forall stopId l w',
     getBusTimesForStop stopId (envDown 1700000000000) initialWorld = (Returned l, w') ->
     Forall statusRule l).
Proof.
  split; [exact reachable_initial|].
  exact (proj1 (status_follows_rule (envDown 1700000000000) initialWorld
                  reachable_initial)).
Defined.

(** C4. For a registered stop, in every world the server can be in,
    [getBusTimesForStop] returns a list sorted by
    [estimatedTime ?? scheduledTime] with at most 8 entries; the [try] block
    (the live path) returns at most 8 and the [catch] block (the pure
    fallback path) at most 6, both sorted. *)
Theorem getBusTimesForStop_sorted_capped env w stopId stopConfig :
  reachable w ->
  lookupStop stops stopId = Some stopConfig ->
  (exists l w',
     getBusTimesForStop stopId env w = (Returned l, w') /\
     sortedByTime l /\ (length l <= 8)%nat) /\
  (exists l w',
     getBusTimesForStop_try stopId stopConfig env w = (Returned l, w') /\
     sortedByTime l /\ (length l <= 8)%nat) /\
  (forall e, exists l w',
     getBusTimesForStop_catch stopId e env w = (Returned l, w') /\
     sortedByTime l /\ (length l <= 6)%nat).
Proof.
  intros Hreach Hcfg. pose proof (reachable_goodWorld w Hreach) as Hw.
  assert (Hreg : registered stopId) by (unfold registered; rewrite Hcfg; eauto).
  split; [|split].
  - pose proof (getBusTimesForStop_spec env stopId w Hw) as H. unfold spec in H.
    destruct (getBusTimesForStop stopId env w) as [[l|e] w'].
    + destruct H as (_ & _ & (Hs & Hl & _) & _). eauto.
    + destruct H as (Hn & _). contradiction.
  - destruct (returns_run env _ w _
                (getBusTimesForStop_try_returns env stopId stopConfig w Hcfg Hw))
      as (l & w' & Hrun & _ & (Hs & Hl & _) & _).
    eauto.
  - intros e.
    destruct (returns_run env _ w _
                (getBusTimesForStop_catch_returns env stopId e w Hreg Hw))
      as (l & w' & Hrun & _ & Hs & Hl & _).
    eauto.
Qed.

Lemma getBusTimesForStop_sorted_capped_witness :
  reachable initialWorld /\
  exists l w',
    getBusTimesForStop "079073279B" (envDown 1700000000000) initialWorld =
      (Returned l, w') /\
    sortedByTime l /\ (length l <= 8)%nat.
Proof.
  split; [exact reachable_initial|].
  exact (proj1 (getBusTimesForStop_sorted_capped (envDown 1700000000000) initialWorld
                  "079073279B"
                  (mkStop "Cleveland Centre (Stand P)" ["Arriva"%string]
                          ["17A"; "17B"]%string ["15890"%string])
                  reachable_initial eq_refl)).
Defined.




Lemma getBusTimesForStop_hit env w stopId e :
  cache w !! cacheKey stopId = Some e ->
  NodeCache.fresh e (clock env (ticks w)) = true ->
  exists w',
    getBusTimesForStop stopId env w = (Returned (NodeCache.v e), w') /\
    cacheHit w' = true /\ cache w' = cache w.
Proof.
  intros He Hfresh.
  unfold getBusTimesForStop, getBusTimesForStop_cached, cache_get, bind, get_cache.
  cbn. rewrite He. destruct (NodeCache.t e =? 0); cbn.
  - eexists. split; [reflexivity|]. split; reflexivity.
  - rewrite Hfresh. cbn. eexists. split; [reflexivity|]. split; reflexivity.
Qed.

(** C7. For a registered stop, in every world the server can be in, a call
    of [getBusTimesForStop] returns a list that is then in the cache (with
    an expiry [CACHE_TTL] seconds ahead when the call had to compute it),
    and a second call made while that entry has not expired returns the
    same list and leaves the cache-hit flag true. *)
Theorem getBusTimesForStop_twice env1 w stopId :
  reachable w ->
  registered stopId ->
  exists r w1 e,
    getBusTimesForStop stopId env1 w = (Returned r, w1) /\
    cache w1 !! cacheKey stopId = Some e /\
    NodeCache.v e = r /\
    (cache w !! cacheKey stopId = None ->
     NodeCache.t e = lastReading env1 w1 + CACHE_TTL * 1000) /\
    forall env2,
      NodeCache.fresh e (clock env2 (ticks w1)) = true ->
      exists w2,
        getBusTimesForStop stopId env2 w1 = (Returned r, w2) /\
        isCacheHit env2 w2 = (Returned true, w2).
Proof.
  intros Hreach Hreg. pose proof (reachable_goodWorld w Hreach) as Hw.
  assert (Htwice : forall r w1 e,
    cache w1 !! cacheKey stopId = Some e -> NodeCache.v e = r ->
    forall env2,
      NodeCache.fresh e (clock env2 (ticks w1)) = true ->
      exists w2,
        getBusTimesForStop stopId env2 w1 = (Returned r, w2) /\
        isCacheHit env2 w2 = (Returned true, w2)).
  { intros r w1 e He <- env2 Hfresh.
    destruct (getBusTimesForStop_hit env2 w1 stopId e He Hfresh) as (w2 & Hrun & Hhit & _).
    exists w2. split; [exact Hrun|]. unfold isCacheHit. by rewrite Hhit. }
  destruct (returns_run env1 _ w _ (getBusTimesForStop_cached_returns env1 stopId w Hw))
    as (cached & w0 & Hrun0 & Hw0 & Hc).
  unfold getBusTimesForStop, bind. rewrite Hrun0.
  destruct cached as [services|].
  - destruct Hc as (_ & Hc & e & He & Hv).
    exists services, w0, e. rewrite Hc.
    split; [reflexivity|]. split; [exact He|]. split; [exact Hv|].
    split; [intros Hnone; congruence|].
    apply Htwice; [by rewrite Hc | exact Hv].
  - pose proof (getBusTimesForStop_fresh_spec env1 stopId w0 Hw0) as H.
    unfold spec in H.
    destruct (getBusTimesForStop_fresh stopId env1 w0) as [[r|err] w1].
    + destruct H as (_ & _ & _ & _ & Hc1).
      exists r, w1, (NodeCache.wrap r CACHE_TTL (lastReading env1 w1)).
      assert (He : cache w1 !! cacheKey stopId =
                   Some (NodeCache.wrap r CACHE_TTL (lastReading env1 w1))).
      { rewrite Hc1. apply lookup_insert_eq. }
      split; [reflexivity|]. split; [exact He|]. split; [reflexivity|].
      split; [intros _; reflexivity|].
      by apply Htwice.
    + destruct H as (Hn & _). contradiction.
Qed.

Lemma registered_StandP : registered "079073279B".
Proof. unfold registered. cbn. eauto. Qed.

Lemma getBusTimesForStop_twice_witness :
  reachable initialWorld /\ registered "079073279B" /\
  exists r w1 e,
    getBusTimesForStop "079073279B" (envDown 1700000000000) initialWorld =
      (Returned r, w1) /\
    cache w1 !! cacheKey "079073279B" = Some e /\
    NodeCache.v e = r /\
    (cache initialWorld !! cacheKey "079073279B" = None ->
     NodeCache.t e = lastReading (envDown 1700000000000) w1 + CACHE_TTL * 1000) /\
    forall env2,
      NodeCache.fresh e (clock env2 (ticks w1)) = true ->
      exists w2,
        getBusTimesForStop "079073279B" env2 w1 = (Returned r, w2) /\
        isCacheHit env2 w2 = (Returned true, w2).
Proof.
  split; [exact reachable_initial|]. split; [exact registered_StandP|].
  exact (getBusTimesForStop_twice (envDown 1700000000000) initialWorld "079073279B"
           reachable_initial registered_StandP).
Defined.

(** A non-success status on the metadata request is caught and logged. *)
Lemma fetchTimetableData_metadata_failure env w datasetId r :
  network env (metadataUrl datasetId) = Some r ->
  Response.ok r = false ->
  exists w',
    fetchTimetableData [datasetId] env w = (Returned ∅, w') /\
    console w' =
      console w ++ [FailedToFetchDataset datasetId (DatasetAPIReturned (Response.status r))].
Proof.
  intros Hnet Hok.
  unfold fetchTimetableData. cbn [fetchTimetableData_loop].
  unfold bind, try_catch, fetch. rewrite Hnet, Hok. cbn.
  eexists. split; reflexivity.
Qed.

(** C2, at the failing input.  When the metadata of a dataset is served and
    names a file, and the download of that file answers with a non-success
    status, [fetchTimetableData] returns no timetable and leaves the world,
    the console included, exactly as it was: nothing is thrown and nothing
    is logged. *)
Theorem fetchTimetableData_body_failure_silent env w datasetId r url r2 :
  network env (metadataUrl datasetId) = Some r ->
  Response.ok r = true ->
  Response.body r = JsonBody (JObject (Some url)) ->
  url <> ""%string ->
  network env (timetableUrl url) = Some r2 ->
  Response.ok r2 = false ->
  fetchTimetableData [datasetId] env w = (Returned ∅, w).
Proof.
  intros Hnet Hok Hbody Hurl Hnet2 Hok2.
  unfold fetchTimetableData. cbn [fetchTimetableData_loop].
  unfold bind, try_catch, fetch, json. rewrite Hnet, Hok, Hbody. cbn.
  destruct (String.eqb url "") eqn:Heq; [apply String.eqb_eq in Heq; contradiction|].
  rewrite Hnet2, Hok2. reflexivity.
Qed.

Lemma fetchTimetableData_body_failure_silent_witness :
  network envBodyDown (metadataUrl "18509") =
    Some (Response.mk 200
            (JsonBody (JObject (Some "https://files.example/18509.xml"%string)))) /\
  network envBodyDown (timetableUrl "https://files.example/18509.xml") =
    Some (Response.mk 500 Malformed) /\
  Response.ok (Response.mk 500 Malformed) = false /\
  fetchTimetableData ["18509"%string] envBodyDown initialWorld =
    (Returned ∅, initialWorld).
Proof.
  split; [reflexivity|]. split; [reflexivity|]. split; [reflexivity|].
  refine (fetchTimetableData_body_failure_silent envBodyDown initialWorld "18509"
            (Response.mk 200
               (JsonBody (JObject (Some "https://files.example/18509.xml"%string))))
            "https://files.example/18509.xml"
            (Response.mk 500 Malformed) _ _ _ _ _ _).
  - reflexivity.
  - reflexivity.
  - reflexivity.
  - discriminate.
  - reflexivity.
  - reflexivity.
Defined.








(** What Stand O gets with the dataset API unreachable and a vehicle on
    line 10 in the feed: 8 services, four of them tracked, cached for 300
    seconds. *)
Example datasets_down_StandO :
  exists l w' e,
    getBusTimesForStop "079073279A" envTracked initialWorld = (Returned l, w') /\
    length l = 8%nat /\
    length (filter (fun s => source s = vehicle_tracking) l) = 4%nat /\
    cache w' !! cacheKey "079073279A" = Some e /\
    NodeCache.t e = lastReading envTracked w' + 300 * 1000.
Proof.
  eexists _, _, _. split; [vm_compute; reflexivity|].
  split; [reflexivity|]. split; [reflexivity|]. split; vm_compute; reflexivity.
Qed.


Lemma reachable_worldAfterStandP : reachable worldAfterStandP.
Proof. apply reachable_serve, reachable_initial. Qed.




(** * Further properties *)

(** ** Numbers and generators *)

(** The thresholds of [determineStatus], in milliseconds. *)
Lemma determineStatus_ms (scheduled estimatedAt : Z) :
  determineStatus scheduled estimatedAt =
    if Z.abs (estimatedAt - scheduled) <? 120000 then onTime
    else if 300000 <? estimatedAt - scheduled then delayed
    else if estimatedAt - scheduled <? -180000 then early
    else estimated.
Proof.
  unfold determineStatus. set (z := estimatedAt - scheduled).
  assert (H2 : Qltb (Qabs (inject_Z z / 60000)) 2 = (Z.abs z <? 120000)).
  { unfold Qltb, Qabs, Qdiv, Qmult, Qinv, inject_Z. cbn.
    destruct (Z.abs z <? 120000) eqn:H; [apply Z.ltb_lt in H | apply Z.ltb_ge in H].
    - apply Z.ltb_lt. lia.
    - apply Z.ltb_ge. lia. }
  assert (H5 : Qltb 5 (inject_Z z / 60000) = (300000 <? z)).
  { unfold Qltb, Qdiv, Qmult, Qinv, inject_Z. cbn.
    destruct (300000 <? z) eqn:H; [apply Z.ltb_lt in H | apply Z.ltb_ge in H].
    - apply Z.ltb_lt. lia.
    - apply Z.ltb_ge. lia. }
  assert (H3 : Qltb (inject_Z z / 60000) (-3) = (z <? -180000)).
  { unfold Qltb, Qdiv, Qmult, Qinv, inject_Z. cbn.
    destruct (z <? -180000) eqn:H; [apply Z.ltb_lt in H | apply Z.ltb_ge in H].
    - apply Z.ltb_lt. lia.
    - apply Z.ltb_ge. lia. }
  rewrite H2, H5, H3. reflexivity.
Qed.



(** X1. [calculateETA] returns a whole number of minutes between 1 and 7
    whenever [Math.random()] is in [0, 1), and the vehicle it is given
    plays no part in the result. *)
Theorem calculateETA_bounds env vehicle w :
  unitRandom env ->
  exists minutes w',
    calculateETA vehicle env w = (Returned minutes, w') /\
    1 <= minutes <= 7 /\
    forall other, calculateETA other env w = (Returned minutes, w').
Proof.
  intros Hr. destruct (Hr (drawn w)) as [H0 H1].
  exists (Z.max 1 (Math_round (random env (drawn w) * 3 / 25 * 60)%Q)),
         (mkWorld (cache w) (vehicleCache w) (cacheHit w) (console w)
                  (S (drawn w)) (ticks w)).
  split; [reflexivity|]. split; [|reflexivity].
  split; [apply Z.le_max_l|]. apply Z.max_lub; [lia|].
  unfold Math_round.
  set (x := (random env (drawn w) * 3 / 25 * 60 + (1 # 2))%Q).
  assert (Hx : (x < inject_Z 8)%Q).
  { unfold x, inject_Z, Qdiv. change (/ 25)%Q with (1 # 25)%Q. lra. }
  pose proof (Qfloor_le x) as Hf.
  assert (Hlt : (inject_Z (Qfloor x) < inject_Z 8)%Q) by lra.
  rewrite <- Zlt_Qlt in Hlt. lia.
Qed.

Lemma calculateETA_bounds_witness :
  unitRandom (envDown 1700000000000) /\
  exists minutes w',
    calculateETA (Vehicle.mk "v" "10" (Some "10"%string) "d" 0 0 0)
      (envDown 1700000000000) initialWorld = (Returned minutes, w') /\
    1 <= minutes <= 7 /\
    forall other,
      calculateETA other (envDown 1700000000000) initialWorld = (Returned minutes, w').
Proof.
  split; [exact (unitRandom_envDown 1700000000000)|].
  exact (calculateETA_bounds (envDown 1700000000000)
           (Vehicle.mk "v" "10" (Some "10"%string) "d" 0 0 0) initialWorld
           (unitRandom_envDown 1700000000000)).
Defined.







Lemma extractServiceTimes_loop_no_line env now service e patterns :
  lineNameOf service = Thrown e ->
  Exists (fun p => Xml.TimingLinkRef p = true) patterns ->
  forall w, extractServiceTimes_loop now service patterns [] env w =
              (Returned ([], Some e), w).
Proof.
  intros Hline. induction 1 as [p rest Hp|p rest _ IH]; intros w;
    cbn [extractServiceTimes_loop].
  - rewrite Hp, Hline. reflexivity.
  - destruct (Xml.TimingLinkRef p); [by rewrite Hline | apply IH].
Qed.

(** X3. [extractServiceTimes] on a service without a line: as soon as a
    journey pattern has a timing link, reading the line name throws; the
    error is caught, logged as a warning, and no departure is returned.
    Nothing is thrown to the caller. *)
Theorem extractServiceTimes_no_line env w service e journeyPattern :
  lineNameOf service = Thrown e ->
  Xml.StandardService service = Some (Some journeyPattern) ->
  Exists (fun p => Xml.TimingLinkRef p = true) (toArray journeyPattern) ->
  exists w',
    extractServiceTimes service env w = (Returned [], w') /\
    console w' = console w ++ [ErrorExtractingServiceTimes e] /\
    cache w' = cache w /\ vehicleCache w' = vehicleCache w.
Proof.
  intros Hline Hstd Hex.
  eexists. split.
  - unfold extractServiceTimes, bind, Date_now. rewrite Hstd.
    rewrite (extractServiceTimes_loop_no_line env _ service e _ Hline Hex).
    reflexivity.
  - repeat split.
Qed.

Lemma extractServiceTimes_no_line_witness :
  lineNameOf (Xml.mkService None (Some (Some (One (Xml.mkPattern true))))) =
    Thrown TypeError /\
  exists w',
    extractServiceTimes (Xml.mkService None (Some (Some (One (Xml.mkPattern true)))))
      (envDown 1700000000000) initialWorld = (Returned [], w') /\
    console w' = console initialWorld ++ [ErrorExtractingServiceTimes TypeError] /\
    cache w' = cache initialWorld /\ vehicleCache w' = vehicleCache initialWorld.
Proof.
  split; [reflexivity|].
  refine (extractServiceTimes_no_line (envDown 1700000000000) initialWorld
            (Xml.mkService None (Some (Some (One (Xml.mkPattern true)))))
            TypeError (One (Xml.mkPattern true)) eq_refl eq_refl _).
  apply Exists_cons_hd. reflexivity.
Defined.

Lemma determineStatus_not_live scheduled estimatedAt :
  determineStatus scheduled estimatedAt <> live.
Proof.
  rewrite determineStatus_ms.
  repeat match goal with |- context [if ?b then _ else _] => destruct b end;
    discriminate.
Qed.



(** ** The parsers *)

Lemma parseTransXChange_loop_broken env pre bad post :
  brokenLine bad ->
  forall services w,
    exists w', parseTransXChange_loop (pre ++ Some bad :: post) services env w =
                 (Thrown TypeError, w').
Proof.
  intros Hbad. induction pre as [|[service|] pre IH]; intros services w;
    cbn [app parseTransXChange_loop].
  - unfold brokenLine in Hbad.
    destruct (Xml.Lines bad) as [[[l|ls]|]|]; try contradiction.
    + rewrite Hbad. eexists. reflexivity.
    + eexists. reflexivity.
  - destruct (Xml.Lines service) as [[[l|ls]|]|]; try apply IH.
    + destruct (Xml.attrs l) as [id|]; [|eexists; reflexivity].
      destruct (js_or (js_or id (Xml.LineName l)) None) as [lineRef|]; [|apply IH].
      destruct (returns_run env _ w _ (extractServiceTimes_returns env service w))
        as (times & w1 & Hrun & _).
      destruct (IH (<[lineRef := times]> services) w1) as [w2 Hrest].
      exists w2. unfold bind. rewrite Hrun. exact Hrest.
    + eexists. reflexivity.
  - apply IH.
Qed.

(** X5. [parseTransXChange] is all or nothing.  When one service of the
    document has several lines, or a line without attributes, reading
    [line.$.id] throws; the error is caught, logged, and the result is the
    empty mapping, whatever the services before it contributed. *)
Theorem parseTransXChange_broken_line env w x transXChange service pre bad post :
  Xml.TransXChange x = Some transXChange ->
  Xml.Services transXChange = Some service ->
  asArray service = pre ++ Some bad :: post ->
  brokenLine bad ->
  exists w',
    parseTransXChange (XmlBody x) env w = (Returned ∅, w') /\
    last (console w') = Some (ErrorParsingTransXChange TypeError).
Proof.
  intros Hroot Hservices Harray Hbad.
  destruct (parseTransXChange_loop_broken env pre bad post Hbad ∅ w) as [w1 Hloop].
  eexists. split.
  - unfold parseTransXChange, try_catch, bind. cbn [parseStringPromise ret].
    rewrite Hroot, Hservices, Harray, Hloop. reflexivity.
  - cbn. apply last_snoc.
Qed.

Lemma parseTransXChange_broken_line_witness :
  brokenLine
    (Xml.mkService
       (Some (Some (Many [Xml.mkLine None (Some "29"%string);
                          Xml.mkLine None (Some "63"%string)])))
       None) /\
  exists w',
    parseTransXChange (XmlBody sampleBrokenDocument) (envDown 1700000000000)
      initialWorld = (Returned ∅, w') /\
    last (console w') = Some (ErrorParsingTransXChange TypeError).
Proof.
  split; [exact I|].
  exact (parseTransXChange_broken_line (envDown 1700000000000) initialWorld
           sampleBrokenDocument _ _
           [Some (Xml.mkService
                    (Some (Some (One (Xml.mkLine (Some (Some "63"%string))
                                        (Some "63"%string)))))
                    (Some (Some (One (Xml.mkPattern true)))))]
           _ [] eq_refl eq_refl eq_refl I).
Defined.

Lemma parseTransXChange_loop_keys env serviceArray :
  forall services w (K : string -> Prop),
    (forall k, is_Some (services !! k) -> K k) ->
    (forall s k, Some s ∈ serviceArray -> lineRefOf s = Some k -> K k) ->
    spec (parseTransXChange_loop serviceArray services) env w
      (fun r _ => forall k, is_Some (r !! k) -> K k)
      (fun _ _ => True).
Proof.
  induction serviceArray as [|[service|] rest IH]; intros services w K Hacc Hk;
    cbn [parseTransXChange_loop].
  - apply spec_ret. exact Hacc.
  - assert (Hrest : forall s k, Some s ∈ rest -> lineRefOf s = Some k -> K k).
    { intros s k Hs. apply Hk. by apply list_elem_of_further. }
    pose proof (Hk service) as Hhere. unfold lineRefOf in Hhere.
    destruct (Xml.Lines service) as [[[l|ls]|]|]; try (apply IH; assumption).
    + destruct (Xml.attrs l) as [id|]; [|by apply spec_throw].
      destruct (js_or (js_or id (Xml.LineName l)) None) as [lineRef|];
        [|apply IH; assumption].
      apply spec_bind.
      eapply spec_mono; [apply extractServiceTimes_returns | cbv beta | by intros ? ? []].
      intros times w1 _. apply IH; [|exact Hrest].
      intros k [v Hv]. destruct (decide (lineRef = k)) as [<-|Hne].
      * apply Hhere; [apply list_elem_of_here | reflexivity].
      * rewrite lookup_insert_ne in Hv by exact Hne. apply Hacc. eauto.
    + by apply spec_throw.
  - apply IH; [exact Hacc|]. intros s k Hs. apply Hk. by apply list_elem_of_further.
Qed.

(** X6. [parseTransXChange] never throws, and every key of the mapping it
    returns is the [id] attribute of the line of some service of the
    document, or the line name when the line has no (or an empty) [id]:
    timetables are filed under line ids, not under line names. *)
Theorem parseTransXChange_keys env w xmlData :
  exists timetables w',
    parseTransXChange xmlData env w = (Returned timetables, w') /\
    forall k, is_Some (timetables !! k) ->
      exists x transXChange service s,
        xmlData = XmlBody x /\
        Xml.TransXChange x = Some transXChange /\
        Xml.Services transXChange = Some service /\
        Some s ∈ asArray service /\
        lineRefOf s = Some k.
Proof.
  destruct (returns_run env _ w _ (parseTransXChange_returns env xmlData w))
    as (timetables & w' & Hrun & _).
  exists timetables, w'. split; [exact Hrun|].
  assert (Hempty : timetables = ∅ ->
    forall k, is_Some (timetables !! k) ->
      exists x transXChange service s,
        xmlData = XmlBody x /\ Xml.TransXChange x = Some transXChange /\
        Xml.Services transXChange = Some service /\
        Some s ∈ asArray service /\ lineRefOf s = Some k).
  { intros -> k [v Hv]. by rewrite lookup_empty in Hv. }
  revert Hrun. unfold parseTransXChange, try_catch, bind.
  destruct xmlData as [j|x|]; cbn [parseStringPromise ret throw];
    try (cbn; intros [= <- _]; by apply Hempty).
  destruct (Xml.TransXChange x) as [transXChange|] eqn:Hroot;
    [|cbn; intros [= <- _]; by apply Hempty].
  destruct (Xml.Services transXChange) as [service|] eqn:Hservices;
    [|cbn; intros [= <- _]; by apply Hempty].
  pose proof (parseTransXChange_loop_keys env (asArray service) ∅ w
    (fun k => exists x0 t sv s,
        XmlBody x = XmlBody x0 /\ Xml.TransXChange x0 = Some t /\
        Xml.Services t = Some sv /\ Some s ∈ asArray sv /\ lineRefOf s = Some k))
    as Hloop.
  unfold spec in Hloop.
  destruct (parseTransXChange_loop (asArray service) ∅ env w) as [[r|e] w1].
  - intros [= <- _]. apply Hloop.
    + intros k [v Hv]. by rewrite lookup_empty in Hv.
    + intros s k Hs Hk. exists x, transXChange, service, s. auto.
  - cbn. intros [= <- _]. by apply Hempty.
Qed.

Lemma parseSIRIVM_loop_observes env activities :
  forall vehicles w,
    exists new w',
      parseSIRIVM_loop activities vehicles env w = (Returned (vehicles ++ new), w') /\
      Forall2 observes (journeysOf activities) new.
Proof.
  induction activities as [|[[[journey|]]|] rest IH]; intros vehicles w;
    cbn [parseSIRIVM_loop journeysOf omap list_omap Xml.MonitoredVehicleJourney].
  - exists [], w. rewrite app_nil_r. split; [reflexivity | constructor].
  - unfold journeysOf. cbn [omap list_omap Xml.MonitoredVehicleJourney].
    fold (journeysOf rest).
    set (stamp := match Xml.RecordedAtTime journey with
                  | Some t => ret t
                  | None => Date_now
                  end).
    assert (Hstamp : exists t w1, stamp env w = (Returned t, w1) /\
              forall t', Xml.RecordedAtTime journey = Some t' -> t = t').
    { unfold stamp. destruct (Xml.RecordedAtTime journey) as [t|].
      - exists t, w. split; [reflexivity|]. by intros t' [= <-].
      - eexists _, _. split; [reflexivity | discriminate]. }
    destruct Hstamp as (t & w1 & Hrun & Ht).
    destruct (IH (vehicles ++
         [Vehicle.mk
            (default "unknown"%string (js_or (Xml.VehicleRef journey) None))
            (default "unknown"%string (js_or (Xml.LineRef journey) None))
            (js_or (Xml.PublishedLineName journey) (Xml.LineRef journey))
            (default "Unknown"%string (js_or (Xml.DestinationName journey) None))
            (default 0%Q (Xml.Latitude journey))
            (default 0%Q (Xml.Longitude journey))
            t]) w1) as (new & w2 & Hrest & Hobs).
    eexists (_ :: new), w2. unfold bind. rewrite Hrun, Hrest.
    rewrite <- app_assoc. split; [reflexivity|].
    constructor; [|exact Hobs]. repeat split. exact Ht.
  - unfold journeysOf. cbn [omap list_omap Xml.MonitoredVehicleJourney].
    apply IH.
  - unfold journeysOf. cbn [omap list_omap]. apply IH.
Qed.

(** X7. [parseSIRIVM] never throws.  It returns one vehicle per activity
    that has a monitored journey, in document order; a missing vehicle or
    line reference reads "unknown", a missing destination "Unknown", missing
    coordinates 0, and the route number is the published line name or else
    the line reference.  Any other document gives the empty list. *)
Theorem parseSIRIVM_observes env w xmlData :
  exists vehicles w',
    parseSIRIVM xmlData env w = (Returned vehicles, w') /\
    match xmlData with
    | XmlBody (Xml.mkRoot _ (Some (Xml.mkSiri (Some vehicleActivity)))) =>
        Forall2 observes (journeysOf (asArray vehicleActivity)) vehicles
    | _ => vehicles = []
    end.
Proof.
  unfold parseSIRIVM, try_catch, bind.
  destruct xmlData as [j|[txc [[[vehicleActivity|]]|]]|];
    cbn [parseStringPromise ret throw Xml.Siri];
    try (eexists _, _; split; reflexivity).
  destruct (parseSIRIVM_loop_observes env (asArray vehicleActivity) [] w)
    as (new & w' & Hrun & Hobs).
  exists new, w'. rewrite Hrun. split; [reflexivity | exact Hobs].
Qed.

(** ** Fetching *)

(** X8. [fetchTimetableData] never throws, whatever the upstream answers:
    every failure is caught dataset by dataset.  It leaves the timetable
    cache and the cache-hit flag alone, and every departure it returns
    carries the status [determineStatus] gives for its two times. *)
Theorem fetchTimetableData_never_throws env w datasetIds :
  exists timetables w',
    fetchTimetableData datasetIds env w = (Returned timetables, w') /\
    cache w' = cache w /\ cacheHit w' = cacheHit w /\
    forall k l, timetables !! k = Some l ->
      Forall (fun c => TimeData.status c =
                       determineStatus (TimeData.scheduled c) (TimeData.estimated c)) l.
Proof.
  destruct (returns_run env _ w _ (fetchTimetableData_returns env datasetIds w))
    as (timetables & w' & Hrun & [Hc Hh] & Hgood).
  exists timetables, w'. split; [exact Hrun|]. split; [exact Hc|]. split; [exact Hh|].
  exact Hgood.
Qed.

(** X9. A dataset whose metadata cannot be had (request rejected, status
    not 2xx, body not JSON, JSON [null]) is skipped: a warning naming the
    dataset and the error is logged, and the remaining datasets are fetched
    as if it had not been listed. *)
Theorem fetchTimetableData_skips_failed env w datasetId rest e :
  metadataError env datasetId = Some e ->
  fetchTimetableData (datasetId :: rest) env w =
    fetchTimetableData rest env (logged w (FailedToFetchDataset datasetId e)).
Proof.
  unfold metadataError. intros He.
  unfold fetchTimetableData. cbn [fetchTimetableData_loop].
  unfold bind at 1. unfold try_catch, bind, fetch, json.
  destruct (network env (metadataUrl datasetId)) as [r|].
  - destruct (Response.ok r).
    + cbn. destruct (Response.body r) as [[|u]| |]; try discriminate;
        injection He as <-; reflexivity.
    + injection He as <-. reflexivity.
  - injection He as <-. reflexivity.
Qed.

Lemma fetchTimetableData_skips_failed_witness :
  metadataError (envDown 1700000000000) "18509" = Some NetworkError /\
  fetchTimetableData ["18509"; "15890"]%string (envDown 1700000000000) initialWorld =
    fetchTimetableData ["15890"%string] (envDown 1700000000000)
      (logged initialWorld (FailedToFetchDataset "18509" NetworkError)).
Proof.
  split; [reflexivity|].
  exact (fetchTimetableData_skips_failed (envDown 1700000000000) initialWorld
           "18509" ["15890"%string] NetworkError eq_refl).
Defined.

(** X10. When there is no vehicle snapshot in the cache and the vehicle
    feed fails (request rejected, or status not 2xx), [getVehiclePositions]
    returns the empty list, logs a warning and caches nothing: the world is
    as before but for the warning, so the next call asks the feed again. *)
Theorem getVehiclePositions_failure env w :
  vehicleCache w !! "vehicle_positions"%string = None ->
  fetchFails env vehicleUrl ->
  exists e,
    getVehiclePositions env w =
      (Returned [], logged w (FailedToFetchVehiclePositions e)) /\
    (e = NetworkError \/ exists status, e = VehicleAPIReturned status).
Proof.
  intros Hmiss Hfail. unfold fetchFails in Hfail.
  unfold getVehiclePositions, vehicleCache_get, bind, get_vehicleCache,
    try_catch, fetch.
  cbn. rewrite Hmiss. cbn.
  destruct (network env vehicleUrl) as [r|].
  - rewrite Hfail. cbn. exists (VehicleAPIReturned (Response.status r)).
    split; [destruct w; reflexivity | eauto].
  - cbn. exists NetworkError. split; [destruct w; reflexivity | by left].
Qed.

Lemma getVehiclePositions_failure_witness :
  vehicleCache initialWorld !! "vehicle_positions"%string = None /\
  fetchFails envFeedDown vehicleUrl /\
  exists e,
    getVehiclePositions envFeedDown initialWorld =
      (Returned [], logged initialWorld (FailedToFetchVehiclePositions e)) /\
    (e = NetworkError \/ exists status, e = VehicleAPIReturned status).
Proof.
  split; [reflexivity|]. split; [reflexivity|].
  exact (getVehiclePositions_failure envFeedDown initialWorld eq_refl eq_refl).
Defined.

Lemma getVehiclePositions_hit env w e :
  vehicleCache w !! "vehicle_positions"%string = Some e ->
  NodeCache.fresh e (clock env (ticks w)) = true ->
  exists w',
    getVehiclePositions env w = (Returned (NodeCache.v e), w') /\
    vehicleCache w' = vehicleCache w /\ console w' = console w /\
    cache w' = cache w.
Proof.
  intros He Hfresh.
  unfold getVehiclePositions, vehicleCache_get, bind, get_vehicleCache. cbn.
  rewrite He. destruct (NodeCache.t e =? 0); cbn.
  - eexists. split; [reflexivity|]. repeat split.
  - rewrite Hfresh. cbn. eexists. split; [reflexivity|]. repeat split.
Qed.

(** X11. When there is no snapshot in the cache and the vehicle feed
    answers with a 2xx status, [getVehiclePositions] returns the parsed
    vehicles and caches them for [VEHICLE_CACHE_TTL] seconds; a later call
    made before that expiry returns the same list from the cache, whatever
    the feed would answer by then, and logs nothing. *)
Theorem getVehiclePositions_cached env w r :
  vehicleCache w !! "vehicle_positions"%string = None ->
  network env vehicleUrl = Some r ->
  Response.ok r = true ->
  exists vehicles w1,
    getVehiclePositions env w = (Returned vehicles, w1) /\
    vehicleCache w1 !! "vehicle_positions"%string =
      Some (NodeCache.mkEntry vehicles (lastReading env w1 + VEHICLE_CACHE_TTL * 1000)) /\
    forall env2,
      clock env2 (ticks w1) <= lastReading env w1 + VEHICLE_CACHE_TTL * 1000 ->
      exists w2,
        getVehiclePositions env2 w1 = (Returned vehicles, w2) /\
        vehicleCache w2 = vehicleCache w1 /\ console w2 = console w1.
Proof.
  intros Hmiss Hnet Hok.
  destruct (returns_run env _ w _ (parseSIRIVM_returns env (Response.body r) w))
    as (vehicles & w2 & Hparse & _).
  set (w3 := mkWorld (cache w2)
               (<["vehicle_positions"%string :=
                    NodeCache.wrap vehicles VEHICLE_CACHE_TTL (clock env (ticks w2))]>
                  (vehicleCache w2))
               (cacheHit w2) (console w2) (drawn w2) (S (ticks w2))).
  assert (Hrun : getVehiclePositions env w = (Returned vehicles, w3)).
  { unfold getVehiclePositions, vehicleCache_get, bind, get_vehicleCache,
      try_catch, fetch.
    cbn. rewrite Hmiss. cbn. rewrite Hnet, Hok.
    replace (mkWorld (cache w) (vehicleCache w) (cacheHit w) (console w)
                     (drawn w) (ticks w)) with w by (destruct w; reflexivity).
    rewrite Hparse. reflexivity. }
  assert (Hentry : vehicleCache w3 !! "vehicle_positions"%string =
            Some (NodeCache.mkEntry vehicles
                    (lastReading env w3 + VEHICLE_CACHE_TTL * 1000))).
  { cbn [vehicleCache w3]. rewrite lookup_insert_eq. reflexivity. }
  exists vehicles, w3. split; [exact Hrun|]. split; [exact Hentry|].
  intros env2 Hclock.
  destruct (getVehiclePositions_hit env2 w3 _ Hentry) as (w4 & Hrun2 & Hv & Hc & _).
  - unfold NodeCache.fresh. cbn [NodeCache.t].
    apply orb_true_iff. right. apply Z.leb_le. exact Hclock.
  - exists w4. auto.
Qed.

Lemma getVehiclePositions_cached_witness :
  vehicleCache initialWorld !! "vehicle_positions"%string = None /\
  Response.ok (Response.mk 200
                 (XmlBody (Xml.mkRoot None
                    (Some (Xml.mkSiri (Some (Some (One (Xml.mkActivity
                       (Some sampleJourney)))))))))) = true /\
  exists vehicles w1,
    getVehiclePositions envFeedUp initialWorld = (Returned vehicles, w1) /\
    vehicleCache w1 !! "vehicle_positions"%string =
      Some (NodeCache.mkEntry vehicles
              (lastReading envFeedUp w1 + VEHICLE_CACHE_TTL * 1000)) /\
    forall env2,
      clock env2 (ticks w1) <= lastReading envFeedUp w1 + VEHICLE_CACHE_TTL * 1000 ->
      exists w2,
        getVehiclePositions env2 w1 = (Returned vehicles, w2) /\
        vehicleCache w2 = vehicleCache w1 /\ console w2 = console w1.
Proof.
  split; [reflexivity|]. split; [reflexivity|].
  exact (getVehiclePositions_cached envFeedUp initialWorld _ eq_refl eq_refl eq_refl).
Defined.

(** ** Ranking *)

Lemma sortedBy_app_le {A} (key : A -> Z) (l1 l2 : list A) :
  sortedBy key (l1 ++ l2) ->
  Forall (fun x => Forall (fun y => key x <= key y) l2) l1.
Proof.
  unfold sortedBy. induction l1 as [|x l1 IH]; cbn; intros Hs; [constructor|].
  inversion Hs as [|? ? Hrest Hx]; subst. constructor; [|by apply IH].
  apply Forall_app in Hx. tauto.
Qed.

(** What [sort] then [slice(0, n)] keeps: the [n] first of a rearrangement
    of the array, none of them later than anything left out. *)
Lemma top_earliest (n : nat) (l : list Service) :
  exists dropped,
    take n (sortByTime l) ++ dropped ≡ₚ l /\
    earliest (take n (sortByTime l)) dropped /\
    length (take n (sortByTime l)) = Nat.min n (length l).
Proof.
  exists (drop n (sortByTime l)). split; [|split].
  - rewrite take_drop. apply sortBy_Permutation.
  - apply (sortedBy_app_le serviceTime). rewrite take_drop. apply sortBy_sorted.
  - rewrite length_take. unfold sortByTime.
    by rewrite (Permutation_length (sortBy_Permutation serviceTime l)).
Qed.

Lemma generateFallbackForRoute_serves env stopConfig route w :
  returns (generateFallbackForRoute route (head (operators stopConfig))) env w
    (fun r w' =>
       keeps w w' /\ length r = 4%nat /\
       Forall (fun s => route = routeNumber s /\
                        operator s = head (operators stopConfig) /\
                        destination s = getDestinationForRoute (routeNumber s) /\
                        is_Some (estimatedTime s) /\
                        source s = fallback) r).
Proof.
  eapply spec_mono; [apply generateFallbackForRoute_returns| |by intros ? ? []].
  cbv beta. intros r w' (Hk & g & Hlen & -> & Hg).
  split; [exact Hk|]. split; [exact Hlen|].
  apply Forall_lookup. intros j s Hj.
  destruct (Hg j s Hj) as (H1 & H2 & H3 & _ & H5 & H6 & _).
  rewrite H1. split; [reflexivity|]. split; [exact H2|]. split; [exact H3|].
  split; [rewrite H5; eauto | exact H6].
Qed.

Lemma getFallbackDataForStop_loop_serves env stopConfig routes :
  forall allServices w,
    exists new w',
      getFallbackDataForStop_loop stopConfig routes allServices env w =
        (Returned (allServices ++ new), w') /\
      keeps w w' /\
      length new = (4 * length routes)%nat /\
      Forall (fun s => routeNumber s ∈ routes /\
                       operator s = head (operators stopConfig) /\
                       destination s = getDestinationForRoute (routeNumber s) /\
                       is_Some (estimatedTime s) /\
                       source s = fallback) new.
Proof.
  induction routes as [|route rest IH]; intros allServices w;
    cbn [getFallbackDataForStop_loop].
  - exists [], w. rewrite app_nil_r. repeat split; [constructor].
  - destruct (returns_run env _ w _
                (generateFallbackForRoute_serves env stopConfig route w))
      as (routeServices & w1 & Hrun & Hk & Hlen & Hall).
    destruct (IH (allServices ++ routeServices) w1) as (new & w2 & Hrest & Hk2 & Hlen2 & Hall2).
    exists (routeServices ++ new), w2. unfold bind. rewrite Hrun, Hrest.
    rewrite <- app_assoc. split; [reflexivity|].
    split; [eapply keeps_trans; eassumption|].
    split; [rewrite length_app, Hlen, Hlen2; cbn; lia|].
    apply Forall_app. split.
    + eapply Forall_impl; [exact Hall|]. cbv beta.
      intros s (Hr & H2 & H3 & H4 & H5).
      split; [rewrite <- Hr; apply list_elem_of_here | auto].
    + eapply Forall_impl; [exact Hall2|]. cbv beta.
      intros s (Hr & H2). split; [by apply list_elem_of_further | exact H2].
Qed.

Lemma getFallbackDataForStop_registered env w stopId stopConfig :
  lookupStop stops stopId = Some stopConfig ->
  returns (getFallbackDataForStop stopId) env w
    (fun l w' =>
       keeps w w' /\
       exists generated dropped,
         length generated = (4 * length (routes stopConfig))%nat /\
         l ++ dropped ≡ₚ generated /\
         earliest l dropped /\
         length l = Nat.min 6 (4 * length (routes stopConfig)) /\
         sortedByTime l /\
         Forall (fun s => servesStop stopConfig s /\ source s = fallback) l).
Proof.
  intros Hcfg.
  destruct (getFallbackDataForStop_loop_serves env stopConfig (routes stopConfig) [] w)
    as (generated & w' & Hrun & Hk & Hlen & Hall).
  destruct (top_earliest 6 generated) as (dropped & Hperm & Hearly & Hlen6).
  unfold returns, spec, getFallbackDataForStop. rewrite Hcfg. unfold bind.
  cbn [app] in Hrun. rewrite Hrun. cbn.
  split; [exact Hk|]. exists generated, dropped.
  split; [exact Hlen|]. split; [exact Hperm|]. split; [exact Hearly|].
  split; [by rewrite Hlen6, Hlen|]. split.
  - apply sortedBy_take, sortBy_sorted.
  - apply Forall_take, sortBy_Forall.
    eapply Forall_impl; [exact Hall|]. cbv beta. unfold servesStop.
    intros s (H1 & H2 & H3 & H4 & H5). auto.
Qed.



Lemma processBusServices_loop_serves env stopConfig tt routes :
  forall services w,
    exists new w',
      processBusServices_loop stopConfig routes tt services env w =
        (Returned (services ++ new), w') /\
      (length routes <= length new)%nat /\
      Forall (fun s => routeNumber s ∈ routes /\
                       operator s = head (operators stopConfig) /\
                       destination s = getDestinationForRoute (routeNumber s) /\
                       is_Some (estimatedTime s)) new.
Proof.
  induction routes as [|route rest IH]; intros services w;
    cbn [processBusServices_loop].
  - exists [], w. rewrite app_nil_r. repeat split; [cbn; lia | constructor].
  - assert (Hstep : forall emitted w1,
      (1 <= length emitted)%nat ->
      Forall (fun s => route = routeNumber s /\
                       operator s = head (operators stopConfig) /\
                       destination s = getDestinationForRoute (routeNumber s) /\
                       is_Some (estimatedTime s)) emitted ->
      exists new w',
        processBusServices_loop stopConfig rest tt (services ++ emitted) env w1 =
          (Returned (services ++ new), w') /\
        (length (route :: rest) <= length new)%nat /\
        Forall (fun s => routeNumber s ∈ route :: rest /\
                         operator s = head (operators stopConfig) /\
                         destination s = getDestinationForRoute (routeNumber s) /\
                         is_Some (estimatedTime s)) new).
    { intros emitted w1 Hlen Hall.
      destruct (IH (services ++ emitted) w1) as (new & w2 & Hrest & Hlen2 & Hall2).
      exists (emitted ++ new), w2. rewrite Hrest, <- app_assoc.
      split; [reflexivity|]. split; [rewrite length_app; cbn; lia|].
      apply Forall_app. split.
      - eapply Forall_impl; [exact Hall|]. cbv beta.
        intros s (Hr & H2). split; [rewrite <- Hr; apply list_elem_of_here | exact H2].
      - eapply Forall_impl; [exact Hall2|]. cbv beta.
        intros s (Hr & H2). split; [by apply list_elem_of_further | exact H2]. }
    assert (Hfb : exists new w',
      (fallbackServices <-
         generateFallbackForRoute route (head (operators stopConfig));;
       processBusServices_loop stopConfig rest tt (services ++ fallbackServices))
        env w = (Returned (services ++ new), w') /\
      (length (route :: rest) <= length new)%nat /\
      Forall (fun s => routeNumber s ∈ route :: rest /\
                       operator s = head (operators stopConfig) /\
                       destination s = getDestinationForRoute (routeNumber s) /\
                       is_Some (estimatedTime s)) new).
    { destruct (returns_run env _ w _
                  (generateFallbackForRoute_serves env stopConfig route w))
        as (fallbackServices & w1 & Hrun & _ & Hlen & Hall).
      unfold bind. rewrite Hrun. apply Hstep; [lia|].
      eapply Forall_impl; [exact Hall|]. cbv beta. tauto. }
    destruct (tt !! route) as [[|timeData more]|]; try exact Hfb.
    apply Hstep; [cbn; lia|].
    apply Forall_fmap, Forall_forall. intros td _. cbn. eauto.
Qed.

Lemma enhanced_serves env vehicles stopConfig s s' :
  servesStop stopConfig s -> enhanced env vehicles s s' -> servesStop stopConfig s'.
Proof.
  unfold servesStop. intros (H1 & H2 & H3 & H4) (E1 & E2 & E3 & _ & Hm).
  destruct (matchingVehicles s vehicles).
  - by rewrite Hm.
  - destruct Hm as (_ & _ & w0 & w1 & minutes & _ & _ & He).
    rewrite E1, E2, E3, He. eauto.
Qed.

Lemma processBusServices_ranked env w stopConfig timetableData vehicles :
  returns (processBusServices stopConfig timetableData vehicles) env w
    (fun l _ =>
       exists candidates dropped,
         (length (routes stopConfig) <= length candidates)%nat /\
         l ++ dropped ≡ₚ candidates /\
         earliest l dropped /\
         length l = Nat.min 8 (length candidates) /\
         sortedByTime l /\
         Forall (servesStop stopConfig) l).
Proof.
  destruct (processBusServices_loop_serves env stopConfig timetableData
              (routes stopConfig) [] w) as (emitted & w1 & Hloop & Hlen & Hall).
  destruct (returns_run env _ w1 _
              (enhanceWithVehicleData_returns env vehicles emitted w1))
    as (candidates & w2 & Henh & _ & Hrel).
  destruct (top_earliest 8 candidates) as (dropped & Hperm & Hearly & Hlen8).
  unfold returns, spec, processBusServices, bind.
  cbn [app] in Hloop. rewrite Hloop, Henh. cbn.
  exists candidates, dropped.
  split; [by rewrite <- (Forall2_length _ _ _ Hrel)|].
  split; [exact Hperm|]. split; [exact Hearly|]. split; [exact Hlen8|]. split.
  - apply sortedBy_take, sortBy_sorted.
  - apply Forall_take, sortBy_Forall.
    clear -Hall Hrel. induction Hrel as [|s s' l l' Hss' _ IH]; constructor.
    + inversion Hall as [|? ? Hs _]; subst.
      eapply enhanced_serves; [|exact Hss']. exact Hs.
    + apply IH. by inversion Hall.
Qed.


(** ** The cache of [getBusTimesForStop] *)

Lemma getBusTimesForStop_cached_stale env w stopId e :
  cache w !! cacheKey stopId = Some e ->
  NodeCache.fresh e (clock env (ticks w)) = false ->
  getBusTimesForStop_cached stopId env w =
    (Returned None,
     mkWorld (delete (cacheKey stopId) (cache w)) (vehicleCache w) false (console w)
             (drawn w) (S (ticks w))).
Proof.
  intros He Hstale.
  assert (Ht : (NodeCache.t e =? 0) = false).
  { unfold NodeCache.fresh in Hstale. by apply orb_false_iff in Hstale as [? _]. }
  unfold getBusTimesForStop_cached, cache_get, bind, get_cache. cbn.
  rewrite He, Ht. cbn. rewrite Hstale. reflexivity.
Qed.

Lemma getBusTimesForStop_cached_absent env w stopId :
  cache w !! cacheKey stopId = None ->
  getBusTimesForStop_cached stopId env w =
    (Returned None,
     mkWorld (cache w) (vehicleCache w) false (console w) (drawn w) (ticks w)).
Proof.
  intros He. unfold getBusTimesForStop_cached, cache_get, bind, get_cache. cbn.
  rewrite He. reflexivity.
Qed.

(** X14. In every world the server can be in, a call of
    [getBusTimesForStop] that finds an entry past its expiry is a miss:
    [cacheHit] is false, a list is built again (sorted, at most 8
    services) and returned, and it replaces the entry, to expire
    [CACHE_TTL] seconds after it is stored. *)
Theorem getBusTimesForStop_expired env w stopId e :
  reachable w ->
  cache w !! cacheKey stopId = Some e ->
  NodeCache.fresh e (clock env (ticks w)) = false ->
  exists r w',
    getBusTimesForStop stopId env w = (Returned r, w') /\
    cacheHit w' = false /\
    sortedByTime r /\ (length r <= 8)%nat /\
    cache w' =
      <[cacheKey stopId := NodeCache.wrap r CACHE_TTL (lastReading env w')]> (cache w).
Proof.
  intros Hreach He Hstale.
  pose proof (reachable_goodWorld w Hreach) as Hw.
  destruct (Hw _ _ He) as [(id & Hreg & Hid) _].
  apply cacheKey_inj in Hid. subst id.
  pose (w1 := mkWorld (delete (cacheKey stopId) (cache w)) (vehicleCache w) false
                      (console w) (drawn w) (S (ticks w))).
  assert (Hw1 : goodWorld w1) by (apply goodCache_delete, Hw).
  pose proof (getBusTimesForStop_fresh_spec env stopId w1 Hw1) as H.
  unfold getBusTimesForStop, bind.
  rewrite (getBusTimesForStop_cached_stale env w stopId e He Hstale). fold w1.
  unfold spec in H. destruct (getBusTimesForStop_fresh stopId env w1) as [[r|err] w2].
  - destruct H as (_ & _ & (Hs & Hl & _) & Hh & Hc). exists r, w2.
    split; [reflexivity|]. split; [exact Hh|]. split; [exact Hs|]. split; [exact Hl|].
    rewrite Hc. cbn. apply insert_delete_eq.
  - destruct H as (Hn & _). contradiction.
Qed.

Lemma getBusTimesForStop_expired_witness :
  exists e,
    reachable worldAfterStandP /\
    cache worldAfterStandP !! cacheKey "079073279B" = Some e /\
    NodeCache.fresh e (clock envLater (ticks worldAfterStandP)) = false /\
    exists r w',
      getBusTimesForStop "079073279B" envLater worldAfterStandP = (Returned r, w') /\
      cacheHit w' = false /\
      sortedByTime r /\ (length r <= 8)%nat /\
      cache w' =
        <[cacheKey "079073279B" := NodeCache.wrap r CACHE_TTL (lastReading envLater w')]>
          (cache worldAfterStandP).
Proof.
  eexists. split; [exact reachable_worldAfterStandP|].
  split; [vm_compute; reflexivity|]. split; [vm_compute; reflexivity|].
  eapply getBusTimesForStop_expired;
    [exact reachable_worldAfterStandP | vm_compute; reflexivity | vm_compute; reflexivity].
Defined.

(** X15. After [POST /api/cache/clear] both caches are empty, and the next
    [getBusTimesForStop] for a registered stop is a miss: it builds the
    list again and the timetable cache then holds that list and nothing
    else. *)
Theorem postApiCacheClear_then_miss env env' w stopId :
  registered stopId ->
  exists w0 r w',
    postApiCacheClear env w = (Returned (200, CacheCleared), w0) /\
    cache w0 = ∅ /\ vehicleCache w0 = ∅ /\
    getBusTimesForStop stopId env' w0 = (Returned r, w') /\
    cacheHit w' = false /\
    cache w' = {[ cacheKey stopId := NodeCache.wrap r CACHE_TTL (lastReading env' w') ]}.
Proof.
  intros Hreg.
  pose (w0 := mkWorld ∅ ∅ (cacheHit w) (console w) (drawn w) (ticks w)).
  pose (w1 := mkWorld (cache w0) (vehicleCache w0) false (console w0) (drawn w0)
                      (ticks w0)).
  assert (Hw1 : goodWorld w1) by apply goodCache_empty.
  pose proof (getBusTimesForStop_fresh_spec env' stopId w1 Hw1) as H.
  unfold spec in H.
  destruct (getBusTimesForStop_fresh stopId env' w1) as [[r|err] w2] eqn:Hrun.
  - destruct H as (_ & _ & _ & Hh & Hc). exists w0, r, w2.
    split; [reflexivity|]. split; [reflexivity|]. split; [reflexivity|].
    split; [|split; [exact Hh|]].
    + unfold getBusTimesForStop, bind.
      rewrite (getBusTimesForStop_cached_absent env' w0 stopId (lookup_empty _)).
      fold w1. by rewrite Hrun.
    + rewrite Hc. apply insert_empty.
  - destruct H as (Hn & _). contradiction.
Qed.

Lemma postApiCacheClear_then_miss_witness :
  registered "079073279B" /\
  exists w0 r w',
    postApiCacheClear envLater worldAfterStandP = (Returned (200, CacheCleared), w0) /\
    cache w0 = ∅ /\ vehicleCache w0 = ∅ /\
    getBusTimesForStop "079073279B" envLater w0 = (Returned r, w') /\
    cacheHit w' = false /\
    cache w' =
      {[ cacheKey "079073279B" := NodeCache.wrap r CACHE_TTL (lastReading envLater w') ]}.
Proof.
  split; [exact registered_StandP|].
  exact (postApiCacheClear_then_miss envLater envLater worldAfterStandP "079073279B"
           registered_StandP).
Defined.

(** ** All stops *)

Lemma registry_routes stopId stopConfig :
  lookupStop stops stopId = Some stopConfig ->
  (2 <= length (routes stopConfig))%nat.
Proof.
  unfold stops. cbn [lookupStop]. intros H.
  repeat case_decide; try discriminate; injection H as <-; cbn; lia.
Qed.

Lemma registry_NoDup : NoDup (map fst stops).
Proof. apply (bool_decide_unpack _). vm_compute. reflexivity. Qed.

Lemma registry_registered : Forall registered (map fst stops).
Proof. unfold registered. repeat constructor; cbn; eauto. Qed.

Lemma hits_misses_Permutation (started : list (string * option (list Service))) :
  map fst (hitsOf started) ++ missesOf started ≡ₚ map fst started.
Proof.
  unfold hitsOf, missesOf. induction started as [|[id [l|]] rest IH]; cbn.
  - reflexivity.
  - by constructor.
  - rewrite <- IH. symmetry. apply Permutation_middle.
Qed.

Lemma getAllClevelandCentreData_permutation env w :
  goodWorld w ->
  returns getAllClevelandCentreData env w
    (fun allData _ =>
       map fst allData ≡ₚ map fst stops /\
       Forall (fun p => goodList (snd p)) allData).
Proof.
  intros Hw.
  eapply spec_mono; [apply getAllClevelandCentreData_returns, Hw| |by intros ? ? []].
  cbv beta. intros allData w' (_ & Hgood & started & fetched & Hids & -> & Hf).
  split; [|exact Hgood].
  rewrite map_app, Hf, <- Hids, <- hits_misses_Permutation.
  apply Permutation_app_head, sortBy_Permutation.
Qed.

(** X16. In every world the server can be in, [getAllClevelandCentreData]
    never throws and returns exactly one entry per stop of the registry
    (the keys are a rearrangement of the registry's keys, without
    repetition), each a sorted list of at most 8 services. *)
Theorem getAllClevelandCentreData_keys env w :
  reachable w ->
  exists allData w',
    getAllClevelandCentreData env w = (Returned allData, w') /\
    map fst allData ≡ₚ map fst stops /\
    NoDup (map fst allData) /\
    Forall (fun p => sortedByTime (snd p) /\ (length (snd p) <= 8)%nat) allData.
Proof.
  intros Hreach.
  destruct (returns_run env _ w _
              (getAllClevelandCentreData_permutation env w (reachable_goodWorld w Hreach)))
    as (allData & w' & Hrun & Hperm & Hgood).
  exists allData, w'.
  split; [exact Hrun|]. split; [exact Hperm|]. split.
  - rewrite Hperm. exact registry_NoDup.
  - eapply Forall_impl; [exact Hgood|]. cbv beta. intros p (Hs & Hl & _). auto.
Qed.

Lemma getAllClevelandCentreData_keys_witness :
  reachable worldAfterStandP /\
  exists allData w',
    getAllClevelandCentreData envLater worldAfterStandP = (Returned allData, w') /\
    map fst allData ≡ₚ map fst stops /\
    NoDup (map fst allData) /\
    Forall (fun p => sortedByTime (snd p) /\ (length (snd p) <= 8)%nat) allData.
Proof.
  split; [exact reachable_worldAfterStandP|].
  exact (getAllClevelandCentreData_keys envLater worldAfterStandP
           reachable_worldAfterStandP).
Defined.

Lemma getFallbackData_loop_shape env stopIds :
  forall fallbackData w,
    Forall registered stopIds ->
    exists new w',
      getFallbackData_loop stopIds fallbackData env w =
        (Returned (fallbackData ++ new), w') /\
      keeps w w' /\
      map fst new = stopIds /\
      Forall (fun p =>
                length (snd p) = 6%nat /\ sortedByTime (snd p) /\
                exists stopConfig,
                  lookupStop stops (fst p) = Some stopConfig /\
                  Forall (fun s => servesStop stopConfig s /\ source s = fallback)
                         (snd p)) new.
Proof.
  induction stopIds as [|stopId rest IH]; intros fallbackData w Hreg;
    cbn [getFallbackData_loop].
  - exists [], w. rewrite app_nil_r.
    split; [reflexivity|]. split; [apply keeps_refl|]. split; [reflexivity | constructor].
  - inversion Hreg as [|? ? [stopConfig Hcfg] Hrest]; subst.
    destruct (returns_run env _ w _
                (getFallbackDataForStop_registered env w stopId _ Hcfg))
      as (services & w1 & Hrun & Hk & generated & dropped & _ & _ & _ & Hlen & Hs & Hall).
    destruct (IH (fallbackData ++ [(stopId, services)]) w1 Hrest)
      as (new & w2 & Hloop & Hk2 & Hids & Hnew).
    exists ((stopId, services) :: new), w2. unfold bind. rewrite Hrun, Hloop.
    rewrite <- app_assoc. split; [reflexivity|].
    split; [eapply keeps_trans; eassumption|]. split; [cbn; by rewrite Hids|].
    constructor; [|exact Hnew]. cbn. split; [|split; [exact Hs|eauto]].
    pose proof (registry_routes _ _ Hcfg). lia.
Qed.

(** X17. [getFallbackData] never throws and never touches the cache: it
    returns one entry per stop, in registry order, each with exactly 6
    synthesized services of source [fallback], sorted by estimated time,
    for routes of that stop. *)
Theorem getFallbackData_shape env w :
  exists fallbackData w',
    getFallbackData env w = (Returned fallbackData, w') /\
    map fst fallbackData = map fst stops /\
    Forall (fun p =>
              length (snd p) = 6%nat /\ sortedByTime (snd p) /\
              exists stopConfig,
                lookupStop stops (fst p) = Some stopConfig /\
                Forall (fun s => servesStop stopConfig s /\ source s = fallback)
                       (snd p)) fallbackData /\
    cache w' = cache w /\ cacheHit w' = cacheHit w.
Proof.
  destruct (getFallbackData_loop_shape env (map fst stops) [] w registry_registered)
    as (new & w' & Hrun & [Hc Hh] & Hids & Hall).
  exists new, w'. split; [exact Hrun|]. auto.
Qed.

(** ** The routes of [server.js] *)

(** X18. [GET /api/vehicles] always answers 200, whatever the vehicle feed
    does: [getVehiclePositions] catches its own failures, so the handler's
    500 branch is never taken; [count] is the length of the list sent, and
    the timetable cache is not touched. *)
Theorem getApiVehicles_never_fails env w :
  exists timestamp vehicles w',
    getApiVehicles env w =
      (Returned (200, Vehicles timestamp vehicles (length vehicles)), w') /\
    cache w' = cache w.
Proof.
  destruct (returns_run env _ w _ (getVehiclePositions_returns env w))
    as (vehicles & w1 & Hrun & [Hc _]).
  exists (clock env (ticks w1)), vehicles.
  eexists. unfold getApiVehicles, try_catch, bind. rewrite Hrun. cbn.
  split; [reflexivity | exact Hc].
Qed.



(** ** No stop without a departure *)

Lemma getBusTimesForStop_try_nonempty env stopId stopConfig w :
  (1 <= length (routes stopConfig))%nat ->
  returns (getBusTimesForStop_try stopId stopConfig) env w (fun r _ => r <> []).
Proof.
  intros Hroutes. unfold getBusTimesForStop_try.
  js_bind fetchTimetableData_returns; [|tauto]. intros tt w1 _.
  js_bind getVehiclePositions_returns; [|tauto]. intros vehicles w2 _.
  js_bind processBusServices_ranked; [|tauto].
  intros busServices w3 (candidates & dropped & Hlen & _ & _ & Hl & _).
  js_bind cache_set_returns; [|tauto]. intros _ w4 _.
  apply spec_ret. intros ->. change (length (@nil Service)) with 0%nat in Hl. lia.
Qed.

Lemma getBusTimesForStop_fresh_nonempty env stopId w :
  spec (getBusTimesForStop_fresh stopId) env w (fun r _ => r <> []) (fun _ _ => True).
Proof.
  unfold getBusTimesForStop_fresh.
  destruct (lookupStop stops stopId) as [stopConfig|] eqn:Hcfg.
  - apply spec_try.
    eapply spec_mono; [apply getBusTimesForStop_try_nonempty| |by intros ? ? []].
    + pose proof (registry_routes _ _ Hcfg). lia.
    + cbv beta. auto.
  - apply spec_throw. exact I.
Qed.

Lemma stocked_insert w w' stopId r t :
  stocked w -> r <> [] ->
  cache w' = <[cacheKey stopId := NodeCache.wrap r CACHE_TTL t]> (cache w) ->
  stocked w'.
Proof.
  intros Hw Hr Hc k e. rewrite Hc.
  destruct (decide (cacheKey stopId = k)) as [<-|Hne].
  - rewrite lookup_insert_eq. intros [= <-]. exact Hr.
  - rewrite lookup_insert_ne by exact Hne. apply Hw.
Qed.

Lemma getBusTimesForStop_fresh_registered env stopId w :
  registered stopId -> goodWorld w -> stocked w ->
  returns (getBusTimesForStop_fresh stopId) env w
    (fun r w' =>
       goodWorld w' /\ stocked w' /\ cacheHit w' = cacheHit w /\ r <> []).
Proof.
  intros Hreg Hw Hs.
  pose proof (getBusTimesForStop_fresh_spec env stopId w Hw) as H1.
  pose proof (getBusTimesForStop_fresh_nonempty env stopId w) as H2.
  unfold returns, spec in *.
  destruct (getBusTimesForStop_fresh stopId env w) as [[r|err] w'].
  - destruct H1 as (_ & Hw' & _ & Hh & Hc).
    split; [exact Hw'|]. split; [|auto]. eapply stocked_insert; eassumption.
  - destruct H1 as (Hn & _). contradiction.
Qed.

Lemma getBusTimesForStop_cached_run env w stopId :
  exists r w',
    getBusTimesForStop_cached stopId env w = (Returned r, w') /\
    cacheHit w' = match r with Some _ => true | None => false end /\
    (forall k, k <> cacheKey stopId -> cache w' !! k = cache w !! k) /\
    (stocked w -> stocked w' /\ forall l, r = Some l -> l <> []) /\
    match cache w !! cacheKey stopId with
    | None => r = None
    | Some e =>
        (forall n, NodeCache.fresh e (clock env n) = true) -> r = Some (NodeCache.v e)
    end.
Proof.
  unfold getBusTimesForStop_cached, cache_get, bind, get_cache. cbn.
  destruct (cache w !! cacheKey stopId) as [e|] eqn:He; cbn.
  - destruct (NodeCache.t e =? 0); cbn.
    + eexists _, _. split; [reflexivity|]. cbn. repeat split; auto.
      intros l [= <-]. eauto.
    + destruct (NodeCache.fresh e (clock env (ticks w))) eqn:Hf; cbn.
      * eexists _, _. split; [reflexivity|]. cbn. repeat split; auto.
        intros l [= <-]. eauto.
      * eexists _, _. split; [reflexivity|]. cbn.
        split; [reflexivity|]. split; [|split].
        -- intros k Hk. by apply lookup_delete_ne.
        -- intros Hs. split; [|discriminate].
           intros k e' H. cbn in H. apply lookup_delete_Some in H as [_ H]. eauto.
        -- intros Hall. rewrite Hall in Hf. discriminate.
  - eexists _, _. split; [reflexivity|]. cbn. repeat split; auto; discriminate.
Qed.

Lemma startAll_stocked env stopIds :
  forall w,
    stocked w ->
    exists started w',
      startAll stopIds env w = (Returned started, w') /\
      stocked w' /\
      Forall (fun p => snd p <> []) (hitsOf started).
Proof.
  induction stopIds as [|stopId rest IH]; intros w Hs; cbn [startAll].
  - exists [], w. repeat split; [exact Hs | constructor].
  - destruct (getBusTimesForStop_cached_run env w stopId)
      as (cached & w1 & Hrun & _ & _ & Hst & _).
    destruct (Hst Hs) as [Hs1 Hne].
    destruct (IH w1 Hs1) as (started & w2 & Hrest & Hs2 & Hall).
    exists ((stopId, cached) :: started), w2. unfold bind. rewrite Hrun, Hrest. cbn.
    split; [reflexivity|]. split; [exact Hs2|].
    unfold hitsOf in *. destruct cached as [l|]; cbn; [|exact Hall].
    constructor; [|exact Hall]. cbn. by apply Hne.
Qed.

Lemma startAll_flag env stopIds :
  forall w lastStop,
    NoDup stopIds -> last stopIds = Some lastStop ->
    exists started w',
      startAll stopIds env w = (Returned started, w') /\
      match cache w !! cacheKey lastStop with
      | None => cacheHit w' = false
      | Some e =>
          (forall n, NodeCache.fresh e (clock env n) = true) -> cacheHit w' = true
      end.
Proof.
  induction stopIds as [|stopId rest IH]; intros w lastStop Hnd Hlast; [discriminate|].
  cbn [startAll].
  destruct (getBusTimesForStop_cached_run env w stopId)
    as (cached & w1 & Hrun & Hh & Hother & _ & Hc).
  destruct rest as [|next rest].
  - injection Hlast as <-. exists [(stopId, cached)], w1.
    unfold bind. rewrite Hrun. cbn. split; [reflexivity|].
    destruct (cache w !! cacheKey stopId) as [e|].
    + intros Hall. rewrite Hh, (Hc Hall). reflexivity.
    + by rewrite Hh, Hc.
  - rewrite last_cons_cons in Hlast.
    apply NoDup_cons in Hnd as [Hnotin Hnd].
    destruct (IH w1 lastStop Hnd Hlast) as (started & w2 & Hrest & Hflag).
    exists ((stopId, cached) :: started), w2. unfold bind. rewrite Hrun, Hrest.
    split; [reflexivity|].
    rewrite <- (Hother (cacheKey lastStop)); [exact Hflag|].
    intros Heq. apply cacheKey_inj in Heq. subst lastStop.
    apply Hnotin. apply last_Some in Hlast as [l' ->].
    apply elem_of_app. right. apply list_elem_of_here.
Qed.

Lemma finishAll_stocked env pending :
  forall allData w,
    goodWorld w -> stocked w -> Forall registered pending ->
    Forall (fun p => snd p <> []) allData ->
    returns (finishAll pending allData) env w
      (fun r w' =>
         goodWorld w' /\ stocked w' /\ cacheHit w' = cacheHit w /\
         Forall (fun p => snd p <> []) r).
Proof.
  induction pending as [|stopId rest IH]; intros allData w Hw Hs Hreg Hall;
    cbn [finishAll].
  - apply spec_ret. auto.
  - inversion Hreg as [|? ? Hid Hrest]; subst.
    apply spec_bind, spec_try.
    eapply spec_mono;
      [apply getBusTimesForStop_fresh_registered; assumption| |by intros ? ? []].
    cbv beta. intros stopData w1 (Hw1 & Hs1 & Hh1 & Hne).
    eapply spec_mono; [apply IH; try assumption| |tauto].
    + apply Forall_app. split; [exact Hall|]. by constructor.
    + cbv beta. intros r w2 (Hw2 & Hs2 & Hh2 & Hr). rewrite Hh2, Hh1. auto.
Qed.

Lemma missesOf_registered (started : list (string * option (list Service))) :
  map fst started = map fst stops -> Forall registered (missesOf started).
Proof.
  intros Hids. pose proof registry_registered as Hreg.
  rewrite <- Hids, <- hits_misses_Permutation in Hreg.
  by apply Forall_app in Hreg as [_ ?].
Qed.

Lemma getAllClevelandCentreData_stocked env w :
  goodWorld w -> stocked w ->
  returns getAllClevelandCentreData env w
    (fun allData w' =>
       goodWorld w' /\ stocked w' /\
       Forall (fun p => snd p <> []) allData /\
       forall lastStop, last (map fst stops) = Some lastStop ->
         match cache w !! cacheKey lastStop with
         | None => cacheHit w' = false
         | Some e =>
             (forall n, NodeCache.fresh e (clock env n) = true) -> cacheHit w' = true
         end).
Proof.
  intros Hw Hs.
  destruct (returns_run env _ w _ (startAll_returns env (map fst stops) w Hw))
    as (started & w1 & Hrun & Hw1 & Hids & _).
  destruct (startAll_stocked env (map fst stops) w Hs)
    as (started' & w1' & Hrun' & Hs1 & Hhits).
  rewrite Hrun in Hrun'. injection Hrun' as <- <-.
  unfold getAllClevelandCentreData.
  apply spec_bind. unfold spec at 1. rewrite Hrun.
  apply spec_bind. unfold completionOrder at 1. unfold spec at 1.
  eapply spec_mono; [apply finishAll_stocked; try assumption| |tauto].
  - apply sortBy_Forall. apply missesOf_registered. by rewrite Hids.
  - cbv beta. intros allData w2 (Hw2 & Hs2 & Hh & Hall).
    split; [exact Hw2|]. split; [exact Hs2|]. split; [exact Hall|].
    intros lastStop Hlast.
    destruct (startAll_flag env (map fst stops) w lastStop registry_NoDup Hlast)
      as (started' & w1' & Hrun' & Hflag).
    rewrite Hrun in Hrun'. injection Hrun' as <- <-.
    by rewrite Hh.
Qed.

Lemma getBusTimesForStop_stocked env stopId w :
  goodWorld w -> stocked w ->
  spec (getBusTimesForStop stopId) env w
    (fun r w' => stocked w' /\ r <> [])
    (fun _ w' => stocked w').
Proof.
  intros Hw Hs.
  destruct (returns_run env _ w _ (getBusTimesForStop_cached_returns env stopId w Hw))
    as (cached & w1 & Hrun & Hw1 & _).
  destruct (getBusTimesForStop_cached_run env w stopId)
    as (cached' & w1' & Hrun' & _ & _ & Hst & _).
  rewrite Hrun in Hrun'. injection Hrun' as <- <-.
  destruct (Hst Hs) as [Hs1 Hne].
  unfold getBusTimesForStop. apply spec_bind. unfold spec at 1. rewrite Hrun.
  destruct cached as [services|].
  - apply spec_ret. split; [exact Hs1 | by apply Hne].
  - pose proof (getBusTimesForStop_fresh_spec env stopId w1 Hw1) as H1.
    pose proof (getBusTimesForStop_fresh_nonempty env stopId w1) as H2.
    unfold spec in *.
    destruct (getBusTimesForStop_fresh stopId env w1) as [[r|err] w2].
    + destruct H1 as (_ & _ & _ & _ & Hc).
      split; [|exact H2]. eapply stocked_insert; eassumption.
    + destruct H1 as (_ & _ & ->). exact Hs1.
Qed.

Lemma serve_stocked r env w :
  goodWorld w -> stocked w -> stocked (snd (serve r env w)).
Proof.
  intros Hw Hs. destruct r as [|stopId| | |]; cbn [serve].
  - pose proof (getAllClevelandCentreData_stocked env w Hw Hs) as H.
    apply returns_run in H as (allData & w1 & Hrun & _ & Hs1 & _).
    unfold try_catch, bind. rewrite Hrun. exact Hs1.
  - pose proof (getBusTimesForStop_stocked env stopId w Hw Hs) as H.
    unfold spec in H. unfold try_catch, bind.
    destruct (getBusTimesForStop stopId env w) as [[r|e] w1]; cbn; tauto.
  - pose proof (getAllClevelandCentreData_stocked env w Hw Hs) as H.
    apply returns_run in H as (allData & w1 & Hrun & _ & Hs1 & _).
    unfold getNextBusGlobally, try_catch, bind. rewrite Hrun. exact Hs1.
  - pose proof (getVehiclePositions_returns env w) as H.
    apply returns_run in H as (r & w1 & Hrun & Hc & _).
    unfold try_catch, bind. rewrite Hrun. cbn. unfold stocked in *. by rewrite Hc.
  - intros k e H. cbn in H. by rewrite lookup_empty in H.
Qed.

(** Every list the server has cached holds a service. *)
Lemma reachable_stocked w : reachable w -> stocked w.
Proof.
  induction 1 as [|r env w Hreach IH].
  - intros k e H. cbn in H. by rewrite lookup_empty in H.
  - apply serve_stocked; [by apply reachable_goodWorld | exact IH].
Qed.

(** X20. In every world the server can be in, [getBusTimesForStop] never
    returns an empty list for a registered stop, from the cache or built
    again: there is always a departure to show. *)
Theorem getBusTimesForStop_nonempty env w stopId :
  reachable w -> registered stopId ->
  exists service rest w',
    getBusTimesForStop stopId env w = (Returned (service :: rest), w').
Proof.
  intros Hreach Hreg.
  pose proof (reachable_goodWorld w Hreach) as Hw.
  pose proof (getBusTimesForStop_stocked env stopId w Hw (reachable_stocked w Hreach)) as H1.
  pose proof (getBusTimesForStop_spec env stopId w Hw) as H2.
  unfold spec in *.
  destruct (getBusTimesForStop stopId env w) as [[[|service rest]|err] w'].
  - by destruct H1 as [_ []].
  - eauto.
  - destruct H2 as (Hn & _). contradiction.
Qed.

Lemma getBusTimesForStop_nonempty_witness :
  reachable worldAfterStandP /\ registered "079073279B" /\
  exists service rest w',
    getBusTimesForStop "079073279B" envLater worldAfterStandP =
      (Returned (service :: rest), w').
Proof.
  split; [exact reachable_worldAfterStandP|]. split; [exact registered_StandP|].
  exact (getBusTimesForStop_nonempty envLater worldAfterStandP "079073279B"
           reachable_worldAfterStandP registered_StandP).
Defined.

(** X21. In every world the server can be in, [GET /api/bus-times] answers
    200 (never the 500 reply with fallback data), with one non-empty list
    per stop of the registry.  Its [cached] field tells only about the last
    stop of the registry: it is false when that stop has no entry in the
    cache, and true when that stop has an entry that is not past its expiry
    at any reading of the clock, whatever the other stops had to do. *)
Theorem getApiBusTimes_reply env w :
  reachable w ->
  exists timestamp allData cached w',
    getApiBusTimes env w = (Returned (200, BusTimes timestamp allData cached), w') /\
    map fst allData ≡ₚ map fst stops /\
    Forall (fun p => snd p <> []) allData /\
    forall lastStop, last (map fst stops) = Some lastStop ->
      match cache w !! cacheKey lastStop with
      | None => cached = false
      | Some e =>
          (forall n, NodeCache.fresh e (clock env n) = true) -> cached = true
      end.
Proof.
  intros Hreach.
  pose proof (reachable_goodWorld w Hreach) as Hw.
  destruct (returns_run env _ w _
              (getAllClevelandCentreData_stocked env w Hw (reachable_stocked w Hreach)))
    as (allData & w1 & Hrun & _ & _ & Hne & Hflag).
  destruct (returns_run env _ w _ (getAllClevelandCentreData_permutation env w Hw))
    as (allData' & w1' & Hrun' & Hperm & _).
  rewrite Hrun in Hrun'. injection Hrun' as <- <-.
  exists (clock env (ticks w1)), allData, (cacheHit w1). eexists.
  unfold getApiBusTimes, try_catch, bind. rewrite Hrun. cbn.
  split; [reflexivity|]. auto.
Qed.

Lemma getApiBusTimes_reply_witness :
  reachable worldAfterStandP /\
  exists timestamp allData cached w',
    getApiBusTimes envLater worldAfterStandP =
      (Returned (200, BusTimes timestamp allData cached), w') /\
    map fst allData ≡ₚ map fst stops /\
    Forall (fun p => snd p <> []) allData /\
    forall lastStop, last (map fst stops) = Some lastStop ->
      match cache worldAfterStandP !! cacheKey lastStop with
      | None => cached = false
      | Some e =>
          (forall n, NodeCache.fresh e (clock envLater n) = true) -> cached = true
      end.
Proof.
  split; [exact reachable_worldAfterStandP|].
  exact (getApiBusTimes_reply envLater worldAfterStandP reachable_worldAfterStandP).
Defined.

Lemma scanAll_nonempty (allData : list (string * list Service)) :
  map fst allData ≡ₚ map fst stops ->
  Forall (fun p => snd p <> []) allData ->
  exists s, fst (scanAll (map snd allData)) = Some s /\
            exists p, p ∈ allData /\ s ∈ snd p.
Proof.
  intros Hperm Hne.
  pose proof (scanAll_firstEarliest (map snd allData)) as H.
  destruct (fst (scanAll (map snd allData))) as [s|].
  - exists s. split; [reflexivity|].
    destruct H as (before & after & Heq & _).
    assert (Hin : s ∈ concat (map snd allData)).
    { rewrite Heq. apply elem_of_app. right. apply list_elem_of_here. }
    apply elem_of_concat in Hin as (l & Hs & Hl).
    apply list_elem_of_fmap in Hl as (p & -> & Hp). eauto.
  - exfalso. cbn in H.
    destruct allData as [|[id l] rest].
    + apply Permutation_length in Hperm. discriminate.
    + inversion Hne as [|? ? Hl _]; subst. cbn in *. destruct l; [contradiction|discriminate].
Qed.

(** X22. In every world the server can be in, [GET /api/next-bus] answers
    200 and always names a bus: [getNextBusGlobally] never returns null,
    because no stop is ever without a departure.  The bus is one of the
    services collected for the stops, and [isPhilBus] is true exactly when
    its route is 17A or 17B. *)
Theorem getApiNextBus_names_a_bus env w :
  reachable w ->
  exists timestamp service phil w',
    getApiNextBus env w = (Returned (200, NextBus timestamp (Some service) phil), w') /\
    (phil = true <-> routeNumber service = "17A"%string \/
                     routeNumber service = "17B"%string) /\
    exists allData w0,
      getAllClevelandCentreData env w = (Returned allData, w0) /\
      exists p, p ∈ allData /\ service ∈ snd p.
Proof.
  intros Hreach.
  pose proof (reachable_goodWorld w Hreach) as Hw.
  destruct (returns_run env _ w _
              (getAllClevelandCentreData_stocked env w Hw (reachable_stocked w Hreach)))
    as (allData & w1 & Hrun & _ & _ & Hne & _).
  destruct (returns_run env _ w _ (getAllClevelandCentreData_permutation env w Hw))
    as (allData' & w1' & Hrun' & Hperm & _).
  rewrite Hrun in Hrun'. injection Hrun' as <- <-.
  destruct (scanAll_nonempty allData Hperm Hne) as (service & Hscan & Hin).
  exists (clock env (ticks w1)), service, (isPhilBus (Some service)). eexists.
  split; [|split].
  - unfold getApiNextBus, getNextBusGlobally, try_catch, bind. rewrite Hrun. cbn.
    rewrite Hscan. reflexivity.
  - unfold isPhilBus. rewrite orb_true_iff, !String.eqb_eq. reflexivity.
  - eauto.
Qed.

Lemma getApiNextBus_names_a_bus_witness :
  reachable worldAfterStandP /\
  exists timestamp service phil w',
    getApiNextBus envLater worldAfterStandP =
      (Returned (200, NextBus timestamp (Some service) phil), w') /\
    (phil = true <-> routeNumber service = "17A"%string \/
                     routeNumber service = "17B"%string) /\
    exists allData w0,
      getAllClevelandCentreData envLater worldAfterStandP = (Returned allData, w0) /\
      exists p, p ∈ allData /\ service ∈ snd p.
Proof.
  split; [exact reachable_worldAfterStandP|].
  exact (getApiNextBus_names_a_bus envLater worldAfterStandP reachable_worldAfterStandP).
Defined.
